(** * rocksdb/advanced_cache.h: the Cache interface, CacheItemHelper and
      CacheWrapper

    A shallow embedding of [include/rocksdb/advanced_cache.h].  Objects live
    at addresses; a virtual member function is a slot of a method table; a
    member function that may change the object is a function from the state
    of the object to a result and a new state. *)

From Stdlib Require Import ZArith Lia.
From stdpp Require Import base option list gmap strings.

Local Open Scope Z_scope.

(** ** Basic types *)

(** An address.  [nullptr] is address 0. *)
Definition ptr : Type := Z.
Definition nullptr : ptr := 0.

(** [size_t] on the LP64 targets RocksDB builds for, and [SIZE_MAX] of
    <cstdint>. *)
Definition size_t : Type := Z.
Definition SIZE_MAX : size_t := 2 ^ 64 - 1.

(** [using ObjectPtr = void*]. *)
Definition ObjectPtr : Type := ptr.

(** [Slice]: a byte string. *)
Definition Slice : Type := string.

(** [Handle*]: the address of an opaque [struct Handle {}].  A [Handle*] that
    may be [nullptr] is an [option Handle]. *)
Definition Handle : Type := Z.

(** [enum class Priority { HIGH, LOW, BOTTOM }]. *)
Inductive Priority := HIGH | LOW | BOTTOM.

(** The states of a handle that the comment on [Lookup] describes: present;
    pending and not ready; pending and ready; failed. *)
Inductive HandleState := Present | PendingNotReady | PendingReady | Failed.

(** Modelled from the spec: the enum [CacheEntryRole] is declared in
    rocksdb/cache.h, which is not among the sources.  The header names one
    enumerator, [kMisc]; the spec calls the field a classification tag.  An
    enumerator other than [kMisc] is [kRole n], where [n] tells the other
    enumerators apart. *)
Inductive CacheEntryRole := kMisc | kRole (n : nat).

(** Modelled from the spec: [Status] is declared in rocksdb/status.h, which is
    not among the sources.  The header names two results of [Insert]: OK and
    [Status::MemoryLimit] (the spec's CapacityExceeded); any other status is
    [StatusOther] with its code. *)
Inductive Status := StatusOK | MemoryLimit | StatusOther (code : Z).

Global Instance Priority_eq_dec : EqDecision Priority.
Proof. solve_decision. Defined.
Global Instance CacheEntryRole_eq_dec : EqDecision CacheEntryRole.
Proof. solve_decision. Defined.
Global Instance Status_eq_dec : EqDecision Status.
Proof. solve_decision. Defined.

(** ** CacheItemHelper *)

(** [struct CacheItemHelper].  The four callbacks are C function pointers and
    [without_secondary_compat] is a [const CacheItemHelper*]. *)
Record CacheItemHelper := {
  del_cb : ptr;
  size_cb : ptr;
  saveto_cb : ptr;
  create_cb : ptr;
  role : CacheEntryRole;
  without_secondary_compat : ptr
}.

Global Instance CacheItemHelper_eq_dec : EqDecision CacheItemHelper.
Proof. solve_decision. Defined.

(** [inline bool IsSecondaryCacheCompatible() const]. *)
Definition IsSecondaryCacheCompatible (h : CacheItemHelper) : bool :=
  bool_decide (size_cb h ≠ nullptr).

(** The helpers in memory, by address. *)
Abbreviation helper_mem := (gmap ptr CacheItemHelper).

(** [assert(b)] in a build with assertions: what follows runs when [b] holds,
    and the program aborts otherwise. *)
Definition cxx_assert {A : Type} (b : bool) (k : option A) : option A :=
  if b then k else None.

(** The six-argument constructor, run for the object at address [this].  The
    member initialisers come first, so the assertions read the new object
    when [_without_secondary_compat] is [this].  The result is the memory
    with the constructed object, or [None] when an assertion fails or
    [_without_secondary_compat] points to no helper. *)
Definition CacheItemHelper_ctor6 (mem : helper_mem) (this : ptr)
    (_role : CacheEntryRole) (_del_cb _size_cb _saveto_cb _create_cb : ptr)
    (_without_secondary_compat : ptr) : option helper_mem :=
  let self := {| del_cb := _del_cb;
                 size_cb := _size_cb;
                 saveto_cb := _saveto_cb;
                 create_cb := _create_cb;
                 role := _role;
                 without_secondary_compat := _without_secondary_compat |} in
  let mem' := <[this := self]> mem in
  cxx_assert (bool_decide (bool_decide (size_cb self ≠ nullptr)
                           = bool_decide (saveto_cb self ≠ nullptr))) $
  cxx_assert (bool_decide (bool_decide (size_cb self ≠ nullptr)
                           = bool_decide (create_cb self ≠ nullptr))) $
  match mem' !! without_secondary_compat self with
  | None => None
  | Some w =>
      cxx_assert (bool_decide (role self = role w)) $
      cxx_assert (bool_decide (del_cb self = del_cb w)) $
      cxx_assert (negb (IsSecondaryCacheCompatible w)) $
      Some mem'
  end.

(** [explicit CacheItemHelper(CacheEntryRole _role, DeleterFn _del_cb = nullptr)]:
    for helpers without SecondaryCache support. *)
Definition CacheItemHelper_ctor2 (mem : helper_mem) (this : ptr)
    (_role : CacheEntryRole) (_del_cb : ptr) : option helper_mem :=
  CacheItemHelper_ctor6 mem this _role _del_cb nullptr nullptr nullptr this.

(** [CacheItemHelper() : CacheItemHelper(CacheEntryRole::kMisc) {}]. *)
Definition CacheItemHelper_ctor0 (mem : helper_mem) (this : ptr)
    : option helper_mem :=
  CacheItemHelper_ctor2 mem this kMisc nullptr.

(** What the five assertions of the constructor check of a helper [h] in
    memory [mem]. *)
Definition helper_invariant (mem : helper_mem) (h : CacheItemHelper) : Prop :=
  (size_cb h ≠ nullptr ↔ saveto_cb h ≠ nullptr) ∧
  (size_cb h ≠ nullptr ↔ create_cb h ≠ nullptr) ∧
  ∃ w, mem !! without_secondary_compat h = Some w ∧
       role h = role w ∧ del_cb h = del_cb w ∧
       IsSecondaryCacheCompatible w = false.

(** ** The Cache interface *)

(** [struct ApplyToAllEntriesOptions]. *)
Record ApplyToAllEntriesOptions := {
  average_entries_per_lock : size_t
}.

Definition ApplyToAllEntriesOptions_default : ApplyToAllEntriesOptions :=
  {| average_entries_per_lock := 256 |}.

(** [class Cache] as the method table of an object whose state has type [St].
    A non-const member function takes the state and returns its result with
    the new state; a const one only reads the state.  The pure virtual
    functions come first.  A virtual function with a body in [Cache] has an
    [_override] slot: [None] when the class of the object inherits the body
    of [Cache], [Some f] when it overrides it with [f].

    [Insert]'s [Handle** handle] is a flag (is it non-null) and a returned
    handle.  The callback of [ApplyToAllEntries] works on data of the
    caller, of type [Acc]. *)
Record Cache (St : Type) := {
  Name : string;
  Insert : Slice → ObjectPtr → ptr → size_t → bool → Priority →
           St → Status * option Handle * St;
  Lookup : Slice → ptr → ptr → Priority → bool → ptr →
           St → option Handle * St;
  Ref : Handle → St → bool * St;
  Release : Handle → bool → St → bool * St;
  Value : Handle → St → ObjectPtr * St;
  Erase : Slice → St → St;
  NewId : St → Z * St;
  SetCapacity : size_t → St → St;
  SetStrictCapacityLimit : bool → St → St;
  HasStrictCapacityLimit : St → bool;
  GetCapacity : St → size_t;
  GetUsage : St → size_t;
  GetUsage_of : Handle → St → size_t;
  GetPinnedUsage : St → size_t;
  GetCharge : Handle → St → size_t;
  GetCacheItemHelper : Handle → St → ptr;
  ApplyToAllEntries :
    ∀ Acc : Type, (Slice → ObjectPtr → size_t → ptr → Acc → Acc) →
                  ApplyToAllEntriesOptions → Acc → St → Acc * St;
  EraseUnRefEntries : St → St;
  (* virtual functions that have a body in Cache *)
  GetOccupancyCount_override : option (St → size_t);
  GetTableAddressCount_override : option (St → size_t);
  DisownData_override : option (St → St);
  GetPrintableOptions_override : option (St → string);
  ReportProblems_override : option (ptr → St → list string);
  Release_useful_override : option (Handle → bool → bool → St → bool * St);
  IsReady_override : option (Handle → St → bool * St);
  Wait_override : option (Handle → St → St);
  WaitAll_override : option (list Handle → St → St);
  (* private: std::shared_ptr<MemoryAllocator> memory_allocator_ *)
  memory_allocator_ : ptr
}.

Arguments Name {St}. Arguments Insert {St}. Arguments Lookup {St}.
Arguments Ref {St}. Arguments Release {St}. Arguments Value {St}.
Arguments Erase {St}. Arguments NewId {St}. Arguments SetCapacity {St}.
Arguments SetStrictCapacityLimit {St}. Arguments HasStrictCapacityLimit {St}.
Arguments GetCapacity {St}. Arguments GetUsage {St}. Arguments GetUsage_of {St}.
Arguments GetPinnedUsage {St}. Arguments GetCharge {St}.
Arguments GetCacheItemHelper {St}. Arguments ApplyToAllEntries {St} _ {Acc}.
Arguments EraseUnRefEntries {St}.
Arguments GetOccupancyCount_override {St}.
Arguments GetTableAddressCount_override {St}.
Arguments DisownData_override {St}. Arguments GetPrintableOptions_override {St}.
Arguments ReportProblems_override {St}. Arguments Release_useful_override {St}.
Arguments IsReady_override {St}. Arguments Wait_override {St}.
Arguments WaitAll_override {St}. Arguments memory_allocator_ {St}.

Section CacheMembers.
Context {St : Type}.
Implicit Types (this : Cache St) (s : St) (handle : Handle).

(** A virtual call: the override of the object's class when there is one,
    the body written in [Cache] otherwise. *)
Definition virtual_call {F : Type} (override : option F) (base : F) : F :=
  match override with
  | Some f => f
  | None => base
  end.

(** The bodies written in [class Cache]. *)

(** [virtual size_t GetOccupancyCount() const { return SIZE_MAX; }] *)
Definition Cache_GetOccupancyCount s : size_t := SIZE_MAX.

(** [virtual size_t GetTableAddressCount() const { return 0; }] *)
Definition Cache_GetTableAddressCount s : size_t := 0.

(** [virtual void DisownData() { }] *)
Definition Cache_DisownData s : St := s.

(** [virtual std::string GetPrintableOptions() const { return ""; }] *)
Definition Cache_GetPrintableOptions s : string := EmptyString.

(** [virtual void ReportProblems(const std::shared_ptr<Logger>&) const {}]:
    the lines written to the logger. *)
Definition Cache_ReportProblems (info_log : ptr) s : list string := [].

(** [virtual bool Release(Handle* handle, bool /*useful*/,
    bool erase_if_last_ref) { return Release(handle, erase_if_last_ref); }]
    The call in the body is a virtual call on [this]. *)
Definition Cache_Release_useful this handle (useful erase_if_last_ref : bool)
    s : bool * St :=
  Release this handle erase_if_last_ref s.

(** [virtual bool IsReady(Handle* /*handle*/) { return true; }] *)
Definition Cache_IsReady handle s : bool * St := (true, s).

(** [virtual void Wait(Handle* /*handle*/) {}] *)
Definition Cache_Wait handle s : St := s.

(** [virtual void WaitAll(std::vector<Handle*>& /*handles*/) {}] *)
Definition Cache_WaitAll (handles : list Handle) s : St := s.

(** Calls through the method table. *)

Definition GetOccupancyCount this : St → size_t :=
  virtual_call (GetOccupancyCount_override this) Cache_GetOccupancyCount.

Definition GetTableAddressCount this : St → size_t :=
  virtual_call (GetTableAddressCount_override this)
               Cache_GetTableAddressCount.

Definition DisownData this : St → St :=
  virtual_call (DisownData_override this) Cache_DisownData.

Definition GetPrintableOptions this : St → string :=
  virtual_call (GetPrintableOptions_override this) Cache_GetPrintableOptions.

Definition ReportProblems this : ptr → St → list string :=
  virtual_call (ReportProblems_override this) Cache_ReportProblems.

Definition Release_useful this : Handle → bool → bool → St → bool * St :=
  virtual_call (Release_useful_override this) (Cache_Release_useful this).

Definition IsReady this : Handle → St → bool * St :=
  virtual_call (IsReady_override this) Cache_IsReady.

Definition Wait this : Handle → St → St :=
  virtual_call (Wait_override this) Cache_Wait.

Definition WaitAll this : list Handle → St → St :=
  virtual_call (WaitAll_override this) Cache_WaitAll.

(** [inline Handle* BasicLookup(const Slice& key, Statistics* stats)]. *)
Definition BasicLookup this (key : Slice) (stats : ptr)
    : St → option Handle * St :=
  Lookup this key nullptr nullptr LOW true stats.

(** [MemoryAllocator* memory_allocator() const]. *)
Definition memory_allocator this : ptr := memory_allocator_ this.

(** ** CacheWrapper *)

(** [class CacheWrapper : public Cache].  The wrapper holds a shared pointer
    to its target, so its state is the state of the target.  [Name] is left
    to the derived class.  The functions the class does not declare keep
    the body of [Cache]; its constructor passes no allocator to [Cache]. *)
Definition CacheWrapper (name : string) (target_ : Cache St) : Cache St := {|
  Name := name;
  Insert := λ key value helper charge handle_out priority,
    Insert target_ key value helper charge handle_out priority;
  Lookup := λ key helper create_context priority wait stats,
    Lookup target_ key helper create_context priority wait stats;
  Ref := λ handle, Ref target_ handle;
  Release := λ handle erase_if_last_ref,
    Release target_ handle erase_if_last_ref;
  Value := λ handle, Value target_ handle;
  Erase := λ key, Erase target_ key;
  NewId := NewId target_;
  SetCapacity := λ capacity, SetCapacity target_ capacity;
  SetStrictCapacityLimit := λ strict_capacity_limit,
    SetStrictCapacityLimit target_ strict_capacity_limit;
  HasStrictCapacityLimit := HasStrictCapacityLimit target_;
  GetCapacity := GetCapacity target_;
  GetUsage := GetUsage target_;
  GetUsage_of := λ handle, GetUsage_of target_ handle;
  GetPinnedUsage := GetPinnedUsage target_;
  GetCharge := λ handle, GetCharge target_ handle;
  GetCacheItemHelper := λ handle, GetCacheItemHelper target_ handle;
  ApplyToAllEntries := λ Acc callback opts,
    ApplyToAllEntries target_ callback opts;
  EraseUnRefEntries := EraseUnRefEntries target_;
  GetOccupancyCount_override := None;
  GetTableAddressCount_override := None;
  DisownData_override := None;
  GetPrintableOptions_override := None;
  ReportProblems_override := None;
  Release_useful_override := None;
  IsReady_override := None;
  Wait_override := None;
  WaitAll_override := None;
  memory_allocator_ := nullptr
|}.

(** A class that overrides none of the functions that have a body in
    [Cache]. *)
Definition inherits_defaults this : Prop :=
  GetOccupancyCount_override this = None ∧
  GetTableAddressCount_override this = None ∧
  DisownData_override this = None ∧
  GetPrintableOptions_override this = None ∧
  ReportProblems_override this = None ∧
  Release_useful_override this = None ∧
  IsReady_override this = None ∧
  Wait_override this = None ∧
  WaitAll_override this = None.

End CacheMembers.

(** ** A target that records what reaches it *)

(** A cache that overrides every virtual function of [Cache] and appends the
    name of each member function called on it to its state, the log of calls.
    It stands for any implementation that keeps an occupancy count, answers
    [IsReady] from the state of the handle, and reads the [useful] flag. *)
Definition RecordingCache : Cache (list string) := {|
  Name := "RecordingCache";
  Insert := λ key value helper charge handle_out priority log,
    (StatusOK, if handle_out then Some 1 else None, log ++ ["Insert"]);
  Lookup := λ key helper create_context priority wait stats log,
    (Some 1, log ++ ["Lookup"]);
  Ref := λ handle log, (true, log ++ ["Ref"]);
  Release := λ handle erase_if_last_ref log,
    (erase_if_last_ref, log ++ ["Release"]);
  Value := λ handle log, (handle, log ++ ["Value"]);
  Erase := λ key log, log ++ ["Erase"];
  NewId := λ log, (Z.of_nat (length log), log ++ ["NewId"]);
  SetCapacity := λ capacity log, log ++ ["SetCapacity"];
  SetStrictCapacityLimit := λ strict_capacity_limit log,
    log ++ ["SetStrictCapacityLimit"];
  HasStrictCapacityLimit := λ log, false;
  GetCapacity := λ log, 100;
  GetUsage := λ log, 0;
  GetUsage_of := λ handle log, 0;
  GetPinnedUsage := λ log, 0;
  GetCharge := λ handle log, 0;
  GetCacheItemHelper := λ handle log, nullptr;
  ApplyToAllEntries := λ Acc callback opts acc log,
    (acc, log ++ ["ApplyToAllEntries"]);
  EraseUnRefEntries := λ log, log ++ ["EraseUnRefEntries"];
  GetOccupancyCount_override := Some (λ log, 3);
  GetTableAddressCount_override := Some (λ log, 16);
  DisownData_override := Some (λ log, log ++ ["DisownData"]);
  GetPrintableOptions_override := Some (λ log, "capacity : 100");
  ReportProblems_override := Some (λ info_log log, ["table is full"]);
  Release_useful_override := Some (λ handle (useful erase_if_last_ref : bool) log,
    (erase_if_last_ref,
     log ++ [if useful then "Release(useful)" else "Release(not useful)"]));
  IsReady_override := Some (λ handle log, (false, log ++ ["IsReady"]));
  Wait_override := Some (λ handle log, log ++ ["Wait"]);
  WaitAll_override := Some (λ handles log, log ++ ["WaitAll"]);
  memory_allocator_ := 4096
|}.

(** ** The cache behind the interface *)

(** [extract P l] takes the first element of [l] that satisfies [P] out of
    [l]; the other elements keep their order. *)
Fixpoint extract {A : Type} (P : A → bool) (l : list A) : option (A * list A) :=
  match l with
  | [] => None
  | x :: l' =>
      if P x then Some (x, l')
      else match extract P l' with
           | Some (y, rest) => Some (y, x :: rest)
           | None => None
           end
  end.

Module CacheCore.

(** Modelled from the spec: no implementation of [Cache] is among the
    sources, which declare [Insert], [Lookup], [Ref], [Release], [Erase]
    and the accounting reads as pure virtual functions.  This module is the
    CacheCore of §4.1 with the handle lifecycle of §4.2 and the promotion
    pipeline of §4.3.  An [Entry] is the record of §3: key, object, charge,
    reference count, priority and
    helper.  A charge is a number of cost units and is not bounded by a
    word size.  [e_handle] is the handle bound to the entry and
    [e_in_table] says whether the table binds [e_key] to this entry; an
    entry that was erased or replaced while referenced stays resident, out
    of the table, until its last reference is released. *)
Record Entry := {
  e_handle : Handle;
  e_key : Slice;
  e_obj : ObjectPtr;
  e_charge : size_t;
  e_refs : nat;
  e_priority : Priority;
  e_helper : ptr;
  e_in_table : bool
}.

(** Modelled from the spec: a handle that a delegated lookup returned and
    that is bound to no resident entry (§4.2): pending, or failed.
    [p_bytes] is what the secondary tier holds for the key. *)
Record Pending := {
  p_handle : Handle;
  p_key : Slice;
  p_helper : ptr;
  p_context : ptr;
  p_priority : Priority;
  p_state : HandleState;
  p_bytes : option Slice
}.

(** Modelled from the spec: the SecondaryTier boundary of §6, an external
    collaborator: [tier_lookup key] is the bytes found for [key], if any,
    and [tier_in_flight key] says that an asynchronous fetch of [key] has
    not completed when [Lookup] returns. *)
Record SecondaryTier := {
  tier_lookup : Slice → option Slice;
  tier_in_flight : Slice → bool
}.

(** Modelled from the spec: the cache-wide state of §3: the entries (least
    recently used first), capacity, strict-capacity flag, total charge in
    use and total charge pinned, kept as counters.  [destroyed] lists the
    calls of the destroy callback (helper, object) and [offered] the
    entries offered to the secondary tier. *)
Record State := {
  entries : list Entry;
  pending : list Pending;
  capacity : size_t;
  strict_capacity_limit : bool;
  usage : size_t;
  pinned_usage : size_t;
  next_handle : Handle;
  secondary : option SecondaryTier;
  destroyed : list (ptr * ObjectPtr);
  offered : list (Slice * ObjectPtr)
}.

(** Modelled from the spec: a new cache (the factory of §6 is external):
    no entry, no usage. *)
Definition new_cache (cap : size_t) (strict : bool)
    (tier : option SecondaryTier) : State :=
  {| entries := []; pending := []; capacity := cap;
     strict_capacity_limit := strict; usage := 0; pinned_usage := 0;
     next_handle := 1; secondary := tier; destroyed := []; offered := [] |}.

Definition set_entries (es : list Entry) (s : State) : State :=
  {| entries := es; pending := pending s; capacity := capacity s;
     strict_capacity_limit := strict_capacity_limit s; usage := usage s;
     pinned_usage := pinned_usage s; next_handle := next_handle s;
     secondary := secondary s; destroyed := destroyed s;
     offered := offered s |}.

Definition set_pending (ps : list Pending) (s : State) : State :=
  {| entries := entries s; pending := ps; capacity := capacity s;
     strict_capacity_limit := strict_capacity_limit s; usage := usage s;
     pinned_usage := pinned_usage s; next_handle := next_handle s;
     secondary := secondary s; destroyed := destroyed s;
     offered := offered s |}.

Definition set_capacity (cap : size_t) (s : State) : State :=
  {| entries := entries s; pending := pending s; capacity := cap;
     strict_capacity_limit := strict_capacity_limit s; usage := usage s;
     pinned_usage := pinned_usage s; next_handle := next_handle s;
     secondary := secondary s; destroyed := destroyed s;
     offered := offered s |}.

Definition set_strict_capacity_limit (b : bool) (s : State) : State :=
  {| entries := entries s; pending := pending s; capacity := capacity s;
     strict_capacity_limit := b; usage := usage s;
     pinned_usage := pinned_usage s; next_handle := next_handle s;
     secondary := secondary s; destroyed := destroyed s;
     offered := offered s |}.

Definition set_usage (u : size_t) (s : State) : State :=
  {| entries := entries s; pending := pending s; capacity := capacity s;
     strict_capacity_limit := strict_capacity_limit s; usage := u;
     pinned_usage := pinned_usage s; next_handle := next_handle s;
     secondary := secondary s; destroyed := destroyed s;
     offered := offered s |}.

Definition set_pinned_usage (u : size_t) (s : State) : State :=
  {| entries := entries s; pending := pending s; capacity := capacity s;
     strict_capacity_limit := strict_capacity_limit s; usage := usage s;
     pinned_usage := u; next_handle := next_handle s;
     secondary := secondary s; destroyed := destroyed s;
     offered := offered s |}.

Definition set_next_handle (h : Handle) (s : State) : State :=
  {| entries := entries s; pending := pending s; capacity := capacity s;
     strict_capacity_limit := strict_capacity_limit s; usage := usage s;
     pinned_usage := pinned_usage s; next_handle := h;
     secondary := secondary s; destroyed := destroyed s;
     offered := offered s |}.

Definition set_destroyed (d : list (ptr * ObjectPtr)) (s : State) : State :=
  {| entries := entries s; pending := pending s; capacity := capacity s;
     strict_capacity_limit := strict_capacity_limit s; usage := usage s;
     pinned_usage := pinned_usage s; next_handle := next_handle s;
     secondary := secondary s; destroyed := d; offered := offered s |}.

Definition set_offered (o : list (Slice * ObjectPtr)) (s : State) : State :=
  {| entries := entries s; pending := pending s; capacity := capacity s;
     strict_capacity_limit := strict_capacity_limit s; usage := usage s;
     pinned_usage := pinned_usage s; next_handle := next_handle s;
     secondary := secondary s; destroyed := destroyed s; offered := o |}.

Definition set_refs (n : nat) (e : Entry) : Entry :=
  {| e_handle := e_handle e; e_key := e_key e; e_obj := e_obj e;
     e_charge := e_charge e; e_refs := n; e_priority := e_priority e;
     e_helper := e_helper e; e_in_table := e_in_table e |}.

Definition set_in_table (b : bool) (e : Entry) : Entry :=
  {| e_handle := e_handle e; e_key := e_key e; e_obj := e_obj e;
     e_charge := e_charge e; e_refs := e_refs e;
     e_priority := e_priority e; e_helper := e_helper e; e_in_table := b |}.

Definition set_state (st : HandleState) (p : Pending) : Pending :=
  {| p_handle := p_handle p; p_key := p_key p; p_helper := p_helper p;
     p_context := p_context p; p_priority := p_priority p; p_state := st;
     p_bytes := p_bytes p |}.

(** The sum of the charges of a list of entries, and of those among them
    that are referenced. *)
Definition total_charge (es : list Entry) : Z :=
  foldr (λ e acc, e_charge e + acc) 0 es.

Definition referenced (e : Entry) : Prop := e_refs e ≠ 0%nat.

Definition pinned_charge (es : list Entry) : Z :=
  total_charge (filter referenced es).

(** The charge that an entry pins: its charge when it is referenced. *)
Definition pinned_part (e : Entry) : Z :=
  match e_refs e with
  | O => 0
  | S _ => e_charge e
  end.

(** What the usage counters hold beyond the charges of the entries; both
    are zero in a state whose accounting is consistent. *)
Definition slack (s : State) : Z := usage s - total_charge (entries s).

Definition pinned_slack (s : State) : Z :=
  pinned_usage s - pinned_charge (entries s).

(** Selectors for [extract]. *)
Definition has_handle (h : Handle) (e : Entry) : bool :=
  bool_decide (e_handle e = h).

Definition bound_to (key : Slice) (e : Entry) : bool :=
  e_in_table e && bool_decide (e_key e = key).

Definition pending_handle (h : Handle) (p : Pending) : bool :=
  bool_decide (p_handle p = h).

Section Operations.

(** The helpers of the callers, which outlive the cache and never change
    (§3), and the deserialize callback of the EntryHelper boundary (§6):
    [deserialize create_cb bytes context] is the object and charge that
    the callback at [create_cb] builds, or [None] when it fails. *)
Variable mem : helper_mem.
Variable deserialize : ptr → Slice → ptr → option (ObjectPtr * size_t).

(** Modelled from the spec: "the helper supports secondary-tier
    serialization" (§4.1 Insert), read off the helper in memory. *)
Definition supports_secondary (helper : ptr) : bool :=
  match mem !! helper with
  | Some h => IsSecondaryCacheCompatible h
  | None => false
  end.

(** Modelled from the spec: "helper is supplied and supports
    reconstruction" (§4.1 Lookup): a non-null helper with a create
    callback. *)
Definition supports_reconstruction (helper : ptr) : bool :=
  bool_decide (helper ≠ nullptr) &&
  match mem !! helper with
  | Some h => bool_decide (create_cb h ≠ nullptr)
  | None => false
  end.

(** Modelled from the spec: the destruction of an entry that has left
    the entries: the destroy callback of its helper is invoked on the
    object and its charge leaves the usage. *)
Definition destroy (e : Entry) (s : State) : State :=
  set_usage (usage s - e_charge e)
    (set_destroyed (destroyed s ++ [(e_helper e, e_obj e)]) s).

(** Modelled from the spec: the offer of an entry to the secondary tier
    (§4.1, §4.3), made when a tier is configured and the helper supports
    it.  The offer is best effort; [offered] records that it was made. *)
Definition offer (key : Slice) (obj : ObjectPtr) (helper : ptr)
    (s : State) : State :=
  match secondary s with
  | Some _ =>
      if supports_secondary helper
      then set_offered (offered s ++ [(key, obj)]) s
      else s
  | None => s
  end.

(** Modelled from the spec: one scan of the eviction algorithm of §4.1
    over the entries of priority [p], oldest first, skipping every entry
    with a nonzero reference count, while the usage is [over] units
    above the capacity.  The result is the entries kept and the entries
    evicted. *)
Fixpoint evict_tier (p : Priority) (es : list Entry) (over : Z)
    : list Entry * list Entry :=
  match es with
  | [] => ([], [])
  | e :: es' =>
      if bool_decide (0 < over) && bool_decide (e_priority e = p)
         && bool_decide (e_refs e = 0%nat)
      then let '(kept, out) := evict_tier p es' (over - e_charge e) in
           (kept, e :: out)
      else let '(kept, out) := evict_tier p es' over in
           (e :: kept, out)
  end.

(** Modelled from the spec: the scan "from lowest priority upward":
    BOTTOM, then LOW, then HIGH. *)
Definition evict_entries (es : list Entry) (over : Z)
    : list Entry * list Entry :=
  let '(kept1, out1) := evict_tier BOTTOM es over in
  let '(kept2, out2) := evict_tier LOW kept1 (over - total_charge out1) in
  let '(kept3, out3) :=
    evict_tier HIGH kept2 (over - total_charge out1 - total_charge out2) in
  (kept3, out1 ++ out2 ++ out3).

(** Modelled from the spec: an evicted entry is offered to the secondary
    tier and destroyed. *)
Definition evicted (e : Entry) (s : State) : State :=
  destroy e (offer (e_key e) (e_obj e) (e_helper e) s).

(** Modelled from the spec: eviction under capacity pressure: while the
    usage exceeds the capacity, unreferenced entries are evicted, until
    the usage is at or below the capacity or no evictable entry
    remains. *)
Definition make_room (s : State) : State :=
  let '(kept, out) := evict_entries (entries s) (usage s - capacity s) in
  foldl (λ s' e, evicted e s') (set_entries kept s) out.

(** Modelled from the spec: the table binding of [key] is removed.  The
    entry is destroyed at once when it is unreferenced and stays
    resident, out of the table, otherwise (§4.1 Erase, §3 on replaced
    keys). *)
Definition unbind (key : Slice) (s : State) : State :=
  match extract (bound_to key) (entries s) with
  | Some (e, rest) =>
      match e_refs e with
      | O => destroy e (set_entries rest s)
      | S _ => set_entries (rest ++ [set_in_table false e]) s
      end
  | None => s
  end.

(** Modelled from the spec: the acceptance of an object under the
    capacity rules of §4.1 Insert: the charge is added to the usage,
    unreferenced entries are evicted while the usage exceeds the
    capacity, and with the strict capacity limit set an acceptance that
    still exceeds the capacity is rejected, its charge taken back.  An
    accepted entry replaces an older binding of its key.  The result
    says whether the entry was accepted. *)
Definition accept_entry (h : Handle) (key : Slice) (obj : ObjectPtr)
    (helper : ptr) (charge : size_t) (refs : nat) (priority : Priority)
    (s : State) : bool * State :=
  let s1 := make_room (set_usage (usage s + charge) s) in
  if strict_capacity_limit s1 && bool_decide (capacity s1 < usage s1)
  then (false, set_usage (usage s1 - charge) s1)
  else
    let s2 := unbind key s1 in
    let e := {| e_handle := h; e_key := key; e_obj := obj;
                e_charge := charge; e_refs := refs;
                e_priority := priority; e_helper := helper;
                e_in_table := true |} in
    (true,
     set_pinned_usage
       (pinned_usage s2 + match refs with O => 0 | S _ => charge end)
       (set_entries (entries s2 ++ [e]) s2)).

(** Modelled from the spec: [Insert] of §4.1.  [None] is a violated
    precondition: a null or dangling helper, or a null object with a
    helper that supports the secondary tier.  The entry is offered to
    the secondary tier whatever the outcome.  A rejected insert returns
    [MemoryLimit] and no handle, and the cache keeps nothing of the
    object.  Without [handle_out] the entry is left unreferenced. *)
Definition Insert (key : Slice) (obj : ObjectPtr) (helper : ptr)
    (charge : size_t) (handle_out : bool) (priority : Priority)
    (s : State) : option (Status * option Handle * State) :=
  match mem !! helper with
  | None => None
  | Some hlp =>
      if IsSecondaryCacheCompatible hlp && bool_decide (obj = nullptr)
      then None
      else
        let h := next_handle s in
        let s1 := offer key obj helper s in
        match accept_entry h key obj helper charge
                    (if handle_out then 1%nat else 0%nat) priority s1 with
        | (false, s2) => Some (MemoryLimit, None, s2)
        | (true, s2) =>
            Some (StatusOK, if handle_out then Some h else None,
                  set_next_handle (h + 1) s2)
        end
  end.

(** Modelled from the spec: one more reference on an entry; its charge
    becomes pinned with the first one.  The entry becomes the most
    recently used. *)
Definition add_ref (e : Entry) (rest : list Entry) (s : State) : State :=
  set_pinned_usage
    (pinned_usage s + match e_refs e with O => e_charge e | S _ => 0 end)
    (set_entries (rest ++ [set_refs (S (e_refs e)) e]) s).

(** Modelled from the spec: the resolution of a pending handle (§4.2
    Wait, §4.3): the bytes of the secondary tier are given to the create
    callback of the helper; the object is inserted into the primary tier
    under the rules of any insert, with the variant of the helper that
    has no secondary support, and the handle becomes Present.  A miss,
    a failed or null reconstruction, or a rejected insert (whose object
    the pipeline destroys) leaves the handle Failed. *)
Definition resolve (p : Pending) (s : State) : State :=
  let failed := set_pending (pending s ++ [set_state Failed p]) s in
  match p_bytes p, mem !! p_helper p with
  | Some bytes, Some hlp =>
      match deserialize (create_cb hlp) bytes (p_context p) with
      | Some (obj, charge) =>
          if bool_decide (obj = nullptr) then failed
          else
            match accept_entry (p_handle p) (p_key p) obj
                        (without_secondary_compat hlp) charge 1%nat
                        (p_priority p) s with
            | (true, s1) => s1
            | (false, s1) =>
                set_destroyed
                  (destroyed s1 ++ [(without_secondary_compat hlp, obj)])
                  (set_pending (pending s1 ++ [set_state Failed p]) s1)
            end
      | None => failed
      end
  | _, _ => failed
  end.

(** Modelled from the spec: the PromotionPipeline of §4.3 on a primary
    miss with a capable helper.  A handle is made for the lookup.  With
    [wait] it is resolved before the lookup returns; otherwise it is
    returned pending: not ready while the fetch is in flight, ready when
    the tier has produced bytes, and failed when the tier has none. *)
Definition PromotionPipeline (tier : SecondaryTier) (key : Slice)
    (helper create_context : ptr) (priority : Priority) (wait : bool)
    (s : State) : option Handle * State :=
  let h := next_handle s in
  let bytes := tier_lookup tier key in
  let p := {| p_handle := h; p_key := key; p_helper := helper;
              p_context := create_context; p_priority := priority;
              p_state := if tier_in_flight tier key then PendingNotReady
                         else match bytes with
                              | Some _ => PendingReady
                              | None => Failed
                              end;
              p_bytes := bytes |} in
  let s1 := set_next_handle (h + 1) s in
  if wait then (Some h, resolve p s1)
  else (Some h, set_pending (pending s1 ++ [p]) s1).

(** Modelled from the spec: [Lookup] of §4.1.  A primary hit returns the
    handle of the entry, Present, with one more reference.  A primary
    miss is delegated to the pipeline when the helper is supplied and
    supports reconstruction and a secondary tier is configured, and
    returns no handle otherwise. *)
Definition Lookup (key : Slice) (helper create_context : ptr)
    (priority : Priority) (wait : bool) (stats : ptr) (s : State)
    : option Handle * State :=
  match extract (bound_to key) (entries s) with
  | Some (e, rest) => (Some (e_handle e), add_ref e rest s)
  | None =>
      match secondary s with
      | Some tier =>
          if supports_reconstruction helper
          then PromotionPipeline tier key helper create_context priority
                                 wait s
          else (None, s)
      | None => (None, s)
      end
  end.

(** Modelled from the spec: [Ref] of §4.1: one more reference when the
    entry of the handle is live, [false] when it is gone.  [None] is the
    illegal call on a pending handle (§4.2). *)
Definition Ref (handle : Handle) (s : State) : option (bool * State) :=
  match extract (has_handle handle) (entries s) with
  | Some (e, rest) => Some (true, add_ref e rest s)
  | None =>
      match extract (pending_handle handle) (pending s) with
      | Some (p, _) =>
          match p_state p with
          | Failed => Some (false, s)
          | _ => None
          end
      | None => Some (false, s)
      end
  end.

(** Modelled from the spec: [Release] of §4.1: one reference less.  When
    the count reaches zero the charge is no longer pinned, and the entry
    is destroyed when [erase_if_last_ref] is set or when the table no
    longer binds it (the deferred destruction of Erase).  The result
    says whether the entry went away.  [None] is a violated
    precondition: a handle that holds no reference, or a pending
    handle. *)
Definition Release (handle : Handle) (erase_if_last_ref : bool)
    (s : State) : option (bool * State) :=
  match extract (has_handle handle) (entries s) with
  | Some (e, rest) =>
      match e_refs e with
      | O => None
      | S O =>
          let s1 := set_pinned_usage (pinned_usage s - e_charge e) s in
          if erase_if_last_ref || negb (e_in_table e)
          then Some (true, destroy e (set_entries rest s1))
          else Some (false, set_entries (rest ++ [set_refs 0 e]) s1)
      | S n => Some (false, set_entries (rest ++ [set_refs n e]) s)
      end
  | None =>
      match extract (pending_handle handle) (pending s) with
      | Some (p, rest) =>
          match p_state p with
          | Failed => Some (true, set_pending rest s)
          | _ => None
          end
      | None => None
      end
  end.

(** Modelled from the spec: [Erase] of §4.1. *)
Definition Erase (key : Slice) (s : State) : State := unbind key s.

(** Modelled from the spec: [SetCapacity] of §4.1: the new capacity, and
    a best-effort eviction when the usage exceeds it. *)
Definition SetCapacity (cap : size_t) (s : State) : State :=
  make_room (set_capacity cap s).

(** Modelled from the spec: the accounting reads of §4.1. *)
Definition GetUsage (s : State) : size_t := usage s.
Definition GetPinnedUsage (s : State) : size_t := pinned_usage s.
Definition GetCapacity (s : State) : size_t := capacity s.

(** Modelled from the spec: the lifecycle state of a handle (§4.2): the
    state of a handle of the pipeline, and Present for the handle of a
    resident entry; [None] for a handle that the cache does not know. *)
Definition handle_state (handle : Handle) (s : State) : option HandleState :=
  match extract (pending_handle handle) (pending s) with
  | Some (p, _) => Some (p_state p)
  | None =>
      match extract (has_handle handle) (entries s) with
      | Some _ => Some Present
      | None => None
      end
  end.

(** Modelled from the spec: [IsReady] of §4.2. *)
Definition IsReady (handle : Handle) (s : State) : bool :=
  match extract (pending_handle handle) (pending s) with
  | Some (p, _) =>
      match p_state p with
      | PendingNotReady => false
      | _ => true
      end
  | None => true
  end.

(** Modelled from the spec: [Wait] of §4.2: a pending handle is
    resolved; the call has no effect on any other handle. *)
Definition Wait (handle : Handle) (s : State) : State :=
  match extract (pending_handle handle) (pending s) with
  | Some (p, rest) =>
      match p_state p with
      | PendingNotReady | PendingReady => resolve p (set_pending rest s)
      | _ => s
      end
  | None => s
  end.

(** Modelled from the spec: [WaitAll] of §4.2. *)
Definition WaitAll (handles : list Handle) (s : State) : State :=
  foldl (λ s' h, Wait h s') s handles.

(** The operations of the accounting property, and a run of a sequence
    of them.  A run stops with [None] at a violated precondition. *)
Inductive Op :=
  | OpInsert (key : Slice) (obj : ObjectPtr) (helper : ptr)
             (charge : size_t) (handle_out : bool) (priority : Priority)
  | OpLookup (key : Slice) (helper create_context : ptr)
             (priority : Priority) (wait : bool) (stats : ptr)
  | OpRef (handle : Handle)
  | OpRelease (handle : Handle) (erase_if_last_ref : bool)
  | OpErase (key : Slice).

Definition step (op : Op) (s : State) : option State :=
  match op with
  | OpInsert key obj helper charge handle_out priority =>
      snd <$> Insert key obj helper charge handle_out priority s
  | OpLookup key helper create_context priority wait stats =>
      Some (snd (Lookup key helper create_context priority wait stats s))
  | OpRef handle => snd <$> Ref handle s
  | OpRelease handle erase_if_last_ref =>
      snd <$> Release handle erase_if_last_ref s
  | OpErase key => Some (Erase key s)
  end.

Fixpoint run (ops : list Op) (s : State) : option State :=
  match ops with
  | [] => Some s
  | op :: ops' =>
      match step op s with
      | Some s' => run ops' s'
      | None => None
      end
  end.

(** The accounting of a state is consistent with its resident entries. *)
Definition accounted (s : State) : Prop :=
  usage s = total_charge (entries s) ∧
  pinned_usage s = pinned_charge (entries s).

(** No secondary tier is configured and no handle is pending or failed. *)
Definition no_tier (s : State) : Prop :=
  secondary s = None ∧ pending s = [].

End Operations.

End CacheCore.

(** ** Concrete helpers *)

(** A memory with one helper, built at address 16 by the constructor for
    helpers without secondary-cache support, and the helper with the three
    callbacks that the six-argument constructor builds on top of it. *)
Definition example_mem : helper_mem :=
  default ∅ (CacheItemHelper_ctor2 ∅ 16 (kRole 0) 7).

Definition example_helper : CacheItemHelper :=
  {| del_cb := 7; size_cb := 8; saveto_cb := 9; create_cb := 10;
     role := kRole 0; without_secondary_compat := 16 |}.

(** ** A concrete cache *)

(** The memory of the two helpers, a secondary tier that holds bytes for the
    key "c" only and answers at once, and a create callback (at address 10)
    that builds an object of charge 30. *)
Definition example_mem2 : helper_mem :=
  default ∅ (CacheItemHelper_ctor6 example_mem 64 (kRole 0) 7 8 9 10 16).

Definition example_tier : CacheCore.SecondaryTier :=
  {| CacheCore.tier_lookup := λ key,
       if bool_decide (key = "c") then Some "bytes of c" else None;
     CacheCore.tier_in_flight := λ key, false |}.

Definition example_deserialize (create_cb : ptr) (bytes : Slice)
    (context : ptr) : option (ObjectPtr * size_t) :=
  if bool_decide (create_cb = 10) then Some (3000, 30) else None.

(** The scenario of the spec (capacity 100, strict: "a" of charge 60, then "b"
    of charge 50 evicts "a"), followed by a lookup of "c" that the secondary
    tier serves, more references, and the erasure of "b" while referenced. *)
Definition example_ops : list CacheCore.Op :=
  [ CacheCore.OpInsert "a" 1000 16 60 false LOW;
    CacheCore.OpInsert "b" 2000 64 50 true LOW;
    CacheCore.OpLookup "c" 64 0 LOW true 0;
    CacheCore.OpLookup "b" 0 0 LOW true 0;
    CacheCore.OpRef 3;
    CacheCore.OpRelease 2 false;
    CacheCore.OpRelease 3 true;
    CacheCore.OpErase "b";
    CacheCore.OpRelease 2 false ].

Definition example_final : CacheCore.State :=
  default (CacheCore.new_cache 0 false None)
    (CacheCore.run example_mem2 example_deserialize example_ops
       (CacheCore.new_cache 100 true (Some example_tier))).

(** A strict cache of capacity 100 filled by one referenced entry. *)
Definition example_full : CacheCore.State :=
  default (CacheCore.new_cache 0 false None)
    (CacheCore.run example_mem2 example_deserialize
       [CacheCore.OpInsert "a" 1000 16 100 true HIGH]
       (CacheCore.new_cache 100 true (Some example_tier))).

(** ** Programs that construct helpers, and stacks of wrappers *)

(** A call of one of the three constructors of [CacheItemHelper], for the
    object at address [this]. *)
Inductive CtorCall :=
  | Ctor0 (this : ptr)
  | Ctor2 (this : ptr) (_role : CacheEntryRole) (_del_cb : ptr)
  | Ctor6 (this : ptr) (_role : CacheEntryRole)
          (_del_cb _size_cb _saveto_cb _create_cb : ptr)
          (_without_secondary_compat : ptr).

Definition ctor_this (c : CtorCall) : ptr :=
  match c with
  | Ctor0 this => this
  | Ctor2 this _ _ => this
  | Ctor6 this _ _ _ _ _ _ => this
  end.

Definition construct (c : CtorCall) (mem : helper_mem) : option helper_mem :=
  match c with
  | Ctor0 this => CacheItemHelper_ctor0 mem this
  | Ctor2 this _role _del_cb => CacheItemHelper_ctor2 mem this _role _del_cb
  | Ctor6 this _role _del_cb _size_cb _saveto_cb _create_cb w =>
      CacheItemHelper_ctor6 mem this _role _del_cb _size_cb _saveto_cb
                            _create_cb w
  end.

(** The constructions of a program, one after the other; the program aborts
    with the first constructor that does. *)
Fixpoint construct_all (cs : list CtorCall) (mem : helper_mem)
    : option helper_mem :=
  match cs with
  | [] => Some mem
  | c :: cs' =>
      match construct c mem with
      | Some mem' => construct_all cs' mem'
      | None => None
      end
  end.

(** Every helper in memory satisfies what the assertions of the constructor
    check. *)
Definition helpers_wf (mem : helper_mem) : Prop :=
  ∀ p h, mem !! p = Some h → helper_invariant mem h.

(** [p->without_secondary_compat->...->without_secondary_compat], [n] times:
    the address reached, or [None] when a pointer on the way points to no
    helper. *)
Fixpoint follow_without_secondary_compat (mem : helper_mem) (n : nat)
    (p : ptr) : option ptr :=
  match n with
  | O => Some p
  | S n' =>
      match mem !! p with
      | Some h =>
          follow_without_secondary_compat mem n' (without_secondary_compat h)
      | None => None
      end
  end.

(** Wrappers around wrappers: [wrap_all [n1; ...; nk] T] is the wrapper named
    [n1] around ... around the wrapper named [nk] around [T]. *)
Definition wrap_all {St : Type} (names : list string) (T : Cache St)
    : Cache St :=
  foldr CacheWrapper T names.

(** [W] and [T] give the same result and the same state for each of the
    virtual functions that have a body in [Cache]. *)
Definition agree_on_bodied {St : Type} (W T : Cache St) : Prop :=
  (∀ s, GetOccupancyCount W s = GetOccupancyCount T s) ∧
  (∀ s, GetTableAddressCount W s = GetTableAddressCount T s) ∧
  (∀ s, DisownData W s = DisownData T s) ∧
  (∀ s, GetPrintableOptions W s = GetPrintableOptions T s) ∧
  (∀ info_log s, ReportProblems W info_log s = ReportProblems T info_log s) ∧
  (∀ h useful e s, Release_useful W h useful e s
                   = Release_useful T h useful e s) ∧
  (∀ h s, IsReady W h s = IsReady T h s) ∧
  (∀ h s, Wait W h s = Wait T h s) ∧
  (∀ hs s, WaitAll W hs s = WaitAll T hs s).

(** Each of these functions of [T] does what its body in [Cache] does. *)
Definition behaves_as_Cache_bodies {St : Type} (T : Cache St) : Prop :=
  (∀ s, GetOccupancyCount T s = SIZE_MAX) ∧
  (∀ s, GetTableAddressCount T s = 0) ∧
  (∀ s, DisownData T s = s) ∧
  (∀ s, GetPrintableOptions T s = EmptyString) ∧
  (∀ info_log s, ReportProblems T info_log s = []) ∧
  (∀ h useful e s, Release_useful T h useful e s = Release T h e s) ∧
  (∀ h s, IsReady T h s = (true, s)) ∧
  (∀ h s, Wait T h s = s) ∧
  (∀ hs s, WaitAll T hs s = s).

(** ** The cache of the spec as an object of a class derived from Cache *)

(** Modelled from the spec: the state of a cache object whose class
    implements the pure virtual functions of [Cache] with the operations of
    [CacheCore]: the state of the cache, and the last id that [NewId] gave
    out (§9: a counter owned by the cache instance).  The object is [None]
    once a call has violated a precondition: such a call is a programming
    error that aborts the program (§7), and nothing happens after it. *)
Record CoreObject := {
  co_state : CacheCore.State;
  co_last_id : Z
}.

Definition with_state (o : CoreObject) (s : CacheCore.State) : CoreObject :=
  {| co_state := s; co_last_id := co_last_id o |}.

(** A member function that may violate a precondition, one that may not,
    one that only changes the state and one that only reads it, on an object
    that may have aborted; [dflt] stands for the result that no one sees
    after an abort. *)
Definition core_call {A : Type} (dflt : A)
    (f : CacheCore.State → option (A * CacheCore.State))
    (o : option CoreObject) : A * option CoreObject :=
  match o with
  | Some obj =>
      match f (co_state obj) with
      | Some (a, s') => (a, Some (with_state obj s'))
      | None => (dflt, None)
      end
  | None => (dflt, None)
  end.

Definition core_total {A : Type} (dflt : A)
    (f : CacheCore.State → A * CacheCore.State)
    (o : option CoreObject) : A * option CoreObject :=
  match o with
  | Some obj => (fst (f (co_state obj)),
                 Some (with_state obj (snd (f (co_state obj)))))
  | None => (dflt, None)
  end.

Definition core_update (f : CacheCore.State → CacheCore.State)
    (o : option CoreObject) : option CoreObject :=
  match o with
  | Some obj => Some (with_state obj (f (co_state obj)))
  | None => None
  end.

Definition core_read {A : Type} (dflt : A) (f : CacheCore.State → A)
    (o : option CoreObject) : A :=
  match o with
  | Some obj => f (co_state obj)
  | None => dflt
  end.

(** Modelled from the spec: [Value] (§4.2, §8): the object of the entry of
    the handle; a handle bound to no resident entry, pending or failed, has
    no object. *)
Definition CacheCore_Value (handle : Handle) (s : CacheCore.State)
    : ObjectPtr :=
  match extract (CacheCore.has_handle handle) (CacheCore.entries s) with
  | Some (e, _) => CacheCore.e_obj e
  | None => nullptr
  end.

(** Modelled from the spec: the charge of the entry of a handle (§3), which
    is what both [GetUsage(handle)] and [GetCharge(handle)] report. *)
Definition CacheCore_GetCharge (handle : Handle) (s : CacheCore.State)
    : size_t :=
  match extract (CacheCore.has_handle handle) (CacheCore.entries s) with
  | Some (e, _) => CacheCore.e_charge e
  | None => 0
  end.

(** Modelled from the spec: the helper that governs the entry of a handle
    (§3), or the helper given to the lookup of a pending handle. *)
Definition CacheCore_GetCacheItemHelper (handle : Handle)
    (s : CacheCore.State) : ptr :=
  match extract (CacheCore.has_handle handle) (CacheCore.entries s) with
  | Some (e, _) => CacheCore.e_helper e
  | None =>
      match extract (CacheCore.pending_handle handle) (CacheCore.pending s)
      with
      | Some (p, _) => CacheCore.p_helper p
      | None => nullptr
      end
  end.

(** Modelled from the spec: [ApplyToAllEntries] (§4.1): the visitor is
    invoked with key, object, charge and helper of every entry that the
    table tracks. *)
Definition CacheCore_ApplyToAllEntries {Acc : Type}
    (callback : Slice → ObjectPtr → size_t → ptr → Acc → Acc)
    (opts : ApplyToAllEntriesOptions) (acc : Acc) (s : CacheCore.State)
    : Acc :=
  foldl (λ a e, callback (CacheCore.e_key e) (CacheCore.e_obj e)
                         (CacheCore.e_charge e) (CacheCore.e_helper e) a)
        acc
        (filter (λ e, CacheCore.e_in_table e = true) (CacheCore.entries s)).

(** Modelled from the spec: [EraseUnRefEntries] (§4.1): every entry with
    zero outstanding references is removed and destroyed. *)
Definition CacheCore_EraseUnRefEntries (s : CacheCore.State)
    : CacheCore.State :=
  foldl (λ s' e, CacheCore.destroy e s')
        (CacheCore.set_entries
           (filter CacheCore.referenced (CacheCore.entries s)) s)
        (filter (λ e, CacheCore.e_refs e = 0%nat) (CacheCore.entries s)).

(** Modelled from the spec: [NewId] (§9): the next value of a 64-bit counter
    of the cache instance. *)
Definition CacheCore_NewId (o : option CoreObject) : Z * option CoreObject :=
  match o with
  | Some obj =>
      let id := (co_last_id obj + 1) mod 2 ^ 64 in
      (id, Some {| co_state := co_state obj; co_last_id := id |})
  | None => (0, None)
  end.

(** Modelled from the spec: a class derived from [Cache] that implements the
    pure virtual functions with the operations of [CacheCore], overrides
    [IsReady], [Wait] and [WaitAll] with those of §4.2, and keeps every
    other body of [Cache], the three-argument [Release] among them. *)
Definition CoreCache (mem : helper_mem)
    (deserialize : ptr → Slice → ptr → option (ObjectPtr * size_t))
    : Cache (option CoreObject) := {|
  Name := "CoreCache";
  Insert := λ key obj helper charge handle_out priority,
    core_call (StatusOther 0, None)
      (CacheCore.Insert mem key obj helper charge handle_out priority);
  Lookup := λ key helper create_context priority wait stats,
    core_total None
      (CacheCore.Lookup mem deserialize key helper create_context priority
                        wait stats);
  Ref := λ handle, core_call false (CacheCore.Ref handle);
  Release := λ handle erase_if_last_ref,
    core_call false (CacheCore.Release handle erase_if_last_ref);
  Value := λ handle o, (core_read nullptr (CacheCore_Value handle) o, o);
  Erase := λ key, core_update (CacheCore.Erase key);
  NewId := CacheCore_NewId;
  SetCapacity := λ capacity, core_update (CacheCore.SetCapacity mem capacity);
  SetStrictCapacityLimit := λ strict_capacity_limit,
    core_update (CacheCore.set_strict_capacity_limit strict_capacity_limit);
  HasStrictCapacityLimit := core_read false CacheCore.strict_capacity_limit;
  GetCapacity := core_read 0 CacheCore.GetCapacity;
  GetUsage := core_read 0 CacheCore.GetUsage;
  GetUsage_of := λ handle, core_read 0 (CacheCore_GetCharge handle);
  GetPinnedUsage := core_read 0 CacheCore.GetPinnedUsage;
  GetCharge := λ handle, core_read 0 (CacheCore_GetCharge handle);
  GetCacheItemHelper := λ handle,
    core_read nullptr (CacheCore_GetCacheItemHelper handle);
  ApplyToAllEntries := λ Acc callback opts acc o,
    (core_read acc (CacheCore_ApplyToAllEntries callback opts acc) o, o);
  EraseUnRefEntries := core_update CacheCore_EraseUnRefEntries;
  GetOccupancyCount_override := None;
  GetTableAddressCount_override := None;
  DisownData_override := None;
  GetPrintableOptions_override := None;
  ReportProblems_override := None;
  Release_useful_override := None;
  IsReady_override :=
    Some (λ handle o, (core_read true (CacheCore.IsReady handle) o, o));
  Wait_override :=
    Some (λ handle, core_update (CacheCore.Wait mem deserialize handle));
  WaitAll_override :=
    Some (λ handles, core_update (CacheCore.WaitAll mem deserialize handles));
  memory_allocator_ := nullptr
|}.




(** A cache object after two lookups that did not wait, on a secondary tier
    whose fetch of "c" is in flight and whose bytes for "d" are at hand:
    handle 1 is pending and not ready, handle 2 pending and ready. *)
Definition example_pending : CoreObject :=
  {| co_state :=
       default (CacheCore.new_cache 0 false None)
         (CacheCore.run example_mem2 example_deserialize
            [CacheCore.OpLookup "c" 64 0 LOW false 0;
             CacheCore.OpLookup "d" 64 0 LOW false 0]
            (CacheCore.new_cache 100 true
               (Some {| CacheCore.tier_lookup := λ key, Some "bytes";
                        CacheCore.tier_in_flight := λ key,
                          bool_decide (key = "c") |})));
     co_last_id := 0 |}.

(** * Properties *)

(** ** CacheItemHelper *)

Lemma cxx_assert_Some {A : Type} (b : bool) (k : option A) (a : A) :
  cxx_assert b k = Some a ↔ b = true ∧ k = Some a.
Proof. destruct b; simpl; intuition congruence. Qed.

(** A constructor that returns has built, at [this], the object of its member
    initialisers, and its five assertions held. *)
Lemma CacheItemHelper_ctor6_Some mem this r d sz sv cr w mem' :
  CacheItemHelper_ctor6 mem this r d sz sv cr w = Some mem' →
  let self := {| del_cb := d; size_cb := sz; saveto_cb := sv; create_cb := cr;
                 role := r; without_secondary_compat := w |} in
  mem' = <[this := self]> mem ∧ helper_invariant mem' self.
Proof.
  unfold CacheItemHelper_ctor6. cbn zeta. intros H.
  apply cxx_assert_Some in H as [H1 H].
  apply cxx_assert_Some in H as [H2 H].
  cbn [without_secondary_compat] in H.
  destruct (<[this:=_]> mem !! w) as [w'|] eqn:Hw; [|discriminate].
  apply cxx_assert_Some in H as [H3 H].
  apply cxx_assert_Some in H as [H4 H].
  apply cxx_assert_Some in H as [H5 H].
  injection H as <-.
  apply bool_decide_eq_true in H1, H2, H3, H4.
  apply negb_true_iff in H5.
  split; [reflexivity|].
  unfold helper_invariant. cbn [size_cb saveto_cb create_cb role del_cb
                                without_secondary_compat] in *.
  split; [|split].
  - clear H2. repeat case_bool_decide; try discriminate; tauto.
  - clear H1. repeat case_bool_decide; try discriminate; tauto.
  - exists w'. auto.
Qed.

(** For a helper that satisfies what the assertions check, the three
    secondary-cache callbacks are all null or all non-null, and
    [IsSecondaryCacheCompatible()] tells which. *)
Lemma helper_invariant_all_or_none mem (h : CacheItemHelper) :
  helper_invariant mem h →
  (IsSecondaryCacheCompatible h = true ↔
     size_cb h ≠ nullptr ∧ saveto_cb h ≠ nullptr ∧ create_cb h ≠ nullptr) ∧
  ((size_cb h = nullptr ∧ saveto_cb h = nullptr ∧ create_cb h = nullptr) ∨
   (size_cb h ≠ nullptr ∧ saveto_cb h ≠ nullptr ∧ create_cb h ≠ nullptr)).
Proof.
  intros (Hsv & Hcr & _). unfold IsSecondaryCacheCompatible.
  rewrite bool_decide_eq_true.
  destruct (decide (size_cb h = nullptr));
    destruct (decide (saveto_cb h = nullptr));
    destruct (decide (create_cb h = nullptr)); tauto.
Qed.

(** C2: for a helper whose construction passed the assertions,
    [IsSecondaryCacheCompatible()] is true exactly when [size_cb], [saveto_cb]
    and [create_cb] are all non-null; the three callbacks are all null or all
    non-null; and a null [size_cb] is the same as no secondary support (all
    three null). *)
Theorem IsSecondaryCacheCompatible_all_callbacks
    mem this r d sz sv cr w mem' (h : CacheItemHelper) :
  CacheItemHelper_ctor6 mem this r d sz sv cr w = Some mem' →
  mem' !! this = Some h →
  (IsSecondaryCacheCompatible h = true ↔
     size_cb h ≠ nullptr ∧ saveto_cb h ≠ nullptr ∧ create_cb h ≠ nullptr) ∧
  ((size_cb h = nullptr ∧ saveto_cb h = nullptr ∧ create_cb h = nullptr) ∨
   (size_cb h ≠ nullptr ∧ saveto_cb h ≠ nullptr ∧ create_cb h ≠ nullptr)) ∧
  (size_cb h = nullptr ↔
     size_cb h = nullptr ∧ saveto_cb h = nullptr ∧ create_cb h = nullptr).
Proof.
  intros Hc Hh.
  apply CacheItemHelper_ctor6_Some in Hc as [-> Hinv].
  rewrite lookup_insert_eq in Hh. injection Hh as <-.
  destruct (helper_invariant_all_or_none _ _ Hinv) as [Hiff Hall].
  split; [exact Hiff|]. split; [exact Hall|]. tauto.
Qed.


(** The helper at address 64, with three callbacks, on top of the plain one at
    address 16. *)
Lemma IsSecondaryCacheCompatible_all_callbacks_witness :
  (IsSecondaryCacheCompatible example_helper = true ↔
     size_cb example_helper ≠ nullptr ∧ saveto_cb example_helper ≠ nullptr ∧
     create_cb example_helper ≠ nullptr) ∧
  ((size_cb example_helper = nullptr ∧ saveto_cb example_helper = nullptr ∧
    create_cb example_helper = nullptr) ∨
   (size_cb example_helper ≠ nullptr ∧ saveto_cb example_helper ≠ nullptr ∧
    create_cb example_helper ≠ nullptr)) ∧
  (size_cb example_helper = nullptr ↔
     size_cb example_helper = nullptr ∧ saveto_cb example_helper = nullptr ∧
     create_cb example_helper = nullptr).
Proof.
  apply (IsSecondaryCacheCompatible_all_callbacks
           example_mem 64 (kRole 0) 7 8 9 10 16
           (<[64 := example_helper]> example_mem)); reflexivity.
Defined.

(** The constructor for helpers without SecondaryCache support returns for
    every memory, address, role and deleter, with this object at [this]. *)
Lemma CacheItemHelper_ctor2_Some
    (mem : helper_mem) (this : ptr) (_role : CacheEntryRole) (_del_cb : ptr) :
  CacheItemHelper_ctor2 mem this _role _del_cb
  = Some (<[this := {| del_cb := _del_cb; size_cb := nullptr;
                       saveto_cb := nullptr; create_cb := nullptr;
                       role := _role; without_secondary_compat := this |}]>
            mem).
Proof.
  unfold CacheItemHelper_ctor2, CacheItemHelper_ctor6. cbn zeta.
  cbn [size_cb saveto_cb create_cb without_secondary_compat].
  rewrite lookup_insert_eq.
  unfold cxx_assert. rewrite !bool_decide_eq_true_2 by reflexivity.
  reflexivity.
Qed.

(** C3: the constructor for helpers without SecondaryCache support always
    returns: every assertion of the constructor it delegates to holds.  The
    helper it builds points to itself as [without_secondary_compat], so its
    role and deleter are those of its [without_secondary_compat]; its three
    secondary-cache callbacks are null and it is not secondary-cache
    compatible. *)
Theorem CacheItemHelper_ctor2_passes_assertions
    (mem : helper_mem) (this : ptr) (_role : CacheEntryRole) (_del_cb : ptr) :
  ∃ mem' h,
    CacheItemHelper_ctor2 mem this _role _del_cb = Some mem' ∧
    mem' !! this = Some h ∧
    role h = _role ∧ del_cb h = _del_cb ∧
    without_secondary_compat h = this ∧
    (∃ w, mem' !! without_secondary_compat h = Some w ∧
          role h = role w ∧ del_cb h = del_cb w ∧
          IsSecondaryCacheCompatible w = false) ∧
    size_cb h = nullptr ∧ saveto_cb h = nullptr ∧ create_cb h = nullptr ∧
    IsSecondaryCacheCompatible h = false.
Proof.
  set (h := {| del_cb := _del_cb; size_cb := nullptr; saveto_cb := nullptr;
               create_cb := nullptr; role := _role;
               without_secondary_compat := this |}).
  exists (<[this := h]> mem), h.
  assert (Hh : <[this := h]> mem !! this = Some h) by apply lookup_insert_eq.
  split; [apply CacheItemHelper_ctor2_Some|].
  repeat split; try reflexivity; try exact Hh.
  exists h. repeat split; try reflexivity. exact Hh.
Qed.

(** C10: the default constructor returns, and the helper it builds has role
    [kMisc], a null deleter, null secondary-cache callbacks and itself as
    [without_secondary_compat]; it satisfies what the assertions check and is
    not secondary-cache compatible. *)
Theorem CacheItemHelper_ctor0_noop (mem : helper_mem) (this : ptr) :
  ∃ mem' h,
    CacheItemHelper_ctor0 mem this = Some mem' ∧
    mem' !! this = Some h ∧
    role h = kMisc ∧
    del_cb h = nullptr ∧ size_cb h = nullptr ∧ saveto_cb h = nullptr ∧
    create_cb h = nullptr ∧
    without_secondary_compat h = this ∧
    helper_invariant mem' h ∧
    IsSecondaryCacheCompatible h = false.
Proof.
  unfold CacheItemHelper_ctor0.
  set (h := {| del_cb := nullptr; size_cb := nullptr; saveto_cb := nullptr;
               create_cb := nullptr; role := kMisc;
               without_secondary_compat := this |}).
  exists (<[this := h]> mem), h.
  assert (Hh : <[this := h]> mem !! this = Some h) by apply lookup_insert_eq.
  split; [apply CacheItemHelper_ctor2_Some|].
  repeat split; try reflexivity; try exact Hh; try tauto.
  exists h. repeat split; try reflexivity. exact Hh.
Qed.

(** ** The bodies of [Cache] and CacheWrapper *)

(** The functions that CacheWrapper declares forward to the target: same
    result, same effect on the state of the target. *)
Lemma CacheWrapper_forwards_declared {St : Type} (name : string)
    (T : Cache St) :
  Insert (CacheWrapper name T) = Insert T ∧
  Lookup (CacheWrapper name T) = Lookup T ∧
  Ref (CacheWrapper name T) = Ref T ∧
  Release (CacheWrapper name T) = Release T ∧
  Value (CacheWrapper name T) = Value T ∧
  Erase (CacheWrapper name T) = Erase T ∧
  NewId (CacheWrapper name T) = NewId T ∧
  SetCapacity (CacheWrapper name T) = SetCapacity T ∧
  SetStrictCapacityLimit (CacheWrapper name T) = SetStrictCapacityLimit T ∧
  HasStrictCapacityLimit (CacheWrapper name T) = HasStrictCapacityLimit T ∧
  GetCapacity (CacheWrapper name T) = GetCapacity T ∧
  GetUsage (CacheWrapper name T) = GetUsage T ∧
  GetUsage_of (CacheWrapper name T) = GetUsage_of T ∧
  GetPinnedUsage (CacheWrapper name T) = GetPinnedUsage T ∧
  GetCharge (CacheWrapper name T) = GetCharge T ∧
  GetCacheItemHelper (CacheWrapper name T) = GetCacheItemHelper T ∧
  (∀ Acc, @ApplyToAllEntries St (CacheWrapper name T) Acc
          = @ApplyToAllEntries St T Acc) ∧
  EraseUnRefEntries (CacheWrapper name T) = EraseUnRefEntries T ∧
  BasicLookup (CacheWrapper name T) = BasicLookup T.
Proof. repeat split. Qed.

(** CacheWrapper overrides none of the functions that have a body in
    [Cache]. *)
Lemma CacheWrapper_inherits_defaults {St : Type} (name : string)
    (T : Cache St) :
  inherits_defaults (CacheWrapper name T).
Proof. repeat split. Qed.

(** The functions that CacheWrapper inherits never reach the target, whatever
    the target does for them; the three-argument [Release] reaches the
    two-argument [Release] of the target. *)
Lemma CacheWrapper_inherited {St : Type} (name : string) (T : Cache St)
    (s : St) (h : Handle) (hs : list Handle) (useful e : bool) (log : ptr) :
  GetOccupancyCount (CacheWrapper name T) s = SIZE_MAX ∧
  GetTableAddressCount (CacheWrapper name T) s = 0 ∧
  DisownData (CacheWrapper name T) s = s ∧
  GetPrintableOptions (CacheWrapper name T) s = EmptyString ∧
  ReportProblems (CacheWrapper name T) log s = [] ∧
  IsReady (CacheWrapper name T) h s = (true, s) ∧
  Wait (CacheWrapper name T) h s = s ∧
  WaitAll (CacheWrapper name T) hs s = s ∧
  Release_useful (CacheWrapper name T) h useful e s = Release T h e s ∧
  memory_allocator (CacheWrapper name T) = nullptr.
Proof. repeat split. Qed.

(** C1: on a target that overrides them, [GetOccupancyCount],
    [GetTableAddressCount], [DisownData], [IsReady], [Wait], [WaitAll] and the
    three-argument [Release] called on the wrapper do not give the result or
    the effect of the call on the target: the wrapper answers with the bodies
    of [Cache], and the target sees nothing, or a two-argument [Release]. *)
Theorem CacheWrapper_misses_overrides :
  let T := RecordingCache in
  let W := CacheWrapper "Wrapper" RecordingCache in
  (GetOccupancyCount T [] = 3 ∧ GetOccupancyCount W [] = SIZE_MAX) ∧
  (GetTableAddressCount T [] = 16 ∧ GetTableAddressCount W [] = 0) ∧
  (DisownData T [] = ["DisownData"] ∧ DisownData W [] = []) ∧
  (IsReady T 1 [] = (false, ["IsReady"]) ∧ IsReady W 1 [] = (true, [])) ∧
  (Wait T 1 [] = ["Wait"] ∧ Wait W 1 [] = []) ∧
  (WaitAll T [1; 2] [] = ["WaitAll"] ∧ WaitAll W [1; 2] [] = []) ∧
  (Release_useful T 1 true false [] = (false, ["Release(useful)"]) ∧
   Release_useful W 1 true false [] = (false, ["Release"])) ∧
  (Release_useful T 1 false false [] = (false, ["Release(not useful)"]) ∧
   Release_useful W 1 false false [] = (false, ["Release"])).
Proof. cbv zeta. repeat split. Qed.

(** C5: on a cache that keeps the bodies of [Cache], [Wait] and [WaitAll]
    return at once for every handle and every vector of handles, with the
    state of the cache, and so of every handle, as it was. *)
Theorem Wait_WaitAll_no_effect {St : Type} (c : Cache St)
    (handle : Handle) (handles : list Handle) (s : St) :
  Wait_override c = None →
  WaitAll_override c = None →
  Wait c handle s = s ∧ WaitAll c handles s = s.
Proof.
  intros Hw Hwa. unfold Wait, WaitAll. rewrite Hw, Hwa. split; reflexivity.
Qed.

Lemma Wait_WaitAll_no_effect_witness :
  Wait (CacheWrapper "Wrapper" RecordingCache) 1 ["Lookup"] = ["Lookup"] ∧
  WaitAll (CacheWrapper "Wrapper" RecordingCache) [1; 2] ["Lookup"]
    = ["Lookup"].
Proof.
  apply (Wait_WaitAll_no_effect (CacheWrapper "Wrapper" RecordingCache)
           1 [1; 2] ["Lookup"]); reflexivity.
Defined.

(** C7: a cache that keeps the bodies of [Cache] reports SIZE_MAX, "not
    supported", as its occupancy count and zero, "not supported", as its
    table address count. *)
Theorem occupancy_and_address_count_unsupported {St : Type} (c : Cache St)
    (s : St) :
  GetOccupancyCount_override c = None →
  GetTableAddressCount_override c = None →
  GetOccupancyCount c s = SIZE_MAX ∧
  GetTableAddressCount c s = 0 ∧
  SIZE_MAX = 18446744073709551615.
Proof.
  intros Ho Ht. unfold GetOccupancyCount, GetTableAddressCount.
  rewrite Ho, Ht. repeat split.
Qed.

Lemma occupancy_and_address_count_unsupported_witness :
  GetOccupancyCount (CacheWrapper "Wrapper" RecordingCache) [] = SIZE_MAX ∧
  GetTableAddressCount (CacheWrapper "Wrapper" RecordingCache) [] = 0 ∧
  SIZE_MAX = 18446744073709551615.
Proof.
  apply (occupancy_and_address_count_unsupported
           (CacheWrapper "Wrapper" RecordingCache) []); reflexivity.
Defined.

(** ** The accounting of the cache *)

Lemma extract_Some_perm {A : Type} (P : A → bool) (l : list A) x rest :
  extract P l = Some (x, rest) → l ≡ₚ x :: rest.
Proof.
  revert x rest. induction l as [|a l IH]; intros x rest; simpl.
  - discriminate.
  - destruct (P a).
    + intros [= -> ->]. reflexivity.
    + destruct (extract P l) as [[y r]|]; [|discriminate].
      intros [= -> <-]. rewrite (IH _ _ eq_refl). apply Permutation_swap.
Qed.

Lemma extract_Some_holds {A : Type} (P : A → bool) (l : list A) x rest :
  extract P l = Some (x, rest) → P x = true.
Proof.
  revert x rest. induction l as [|a l IH]; intros x rest; simpl.
  - discriminate.
  - destruct (P a) eqn:Ha.
    + intros [= -> ->]. exact Ha.
    + destruct (extract P l) as [[y r]|]; [|discriminate].
      intros [= -> <-]. eapply IH. reflexivity.
Qed.

Section CacheCoreFacts.
Import CacheCore.

Variable mem : helper_mem.
Variable deserialize : ptr → Slice → ptr → option (ObjectPtr * size_t).

Lemma total_charge_cons e es :
  total_charge (e :: es) = e_charge e + total_charge es.
Proof. reflexivity. Qed.

Local Arguments total_charge : simpl never.
Local Arguments pinned_charge : simpl never.

Lemma total_charge_app es1 es2 :
  total_charge (es1 ++ es2) = total_charge es1 + total_charge es2.
Proof.
  induction es1 as [|e es1 IH]; [reflexivity|].
  rewrite <- app_comm_cons, !total_charge_cons. lia.
Qed.

Lemma pinned_charge_cons e es :
  pinned_charge (e :: es) = pinned_part e + pinned_charge es.
Proof.
  unfold pinned_charge, pinned_part. rewrite filter_cons. unfold referenced at 1.
  destruct (decide (e_refs e ≠ 0%nat)) as [H|H]; simpl.
  - destruct (e_refs e); [done|reflexivity].
  - destruct (e_refs e); [reflexivity|]. exfalso. apply H. done.
Qed.

Lemma pinned_charge_app es1 es2 :
  pinned_charge (es1 ++ es2) = pinned_charge es1 + pinned_charge es2.
Proof.
  induction es1 as [|e es1 IH]; [reflexivity|].
  rewrite <- app_comm_cons, !pinned_charge_cons. lia.
Qed.

Lemma total_charge_perm es1 es2 :
  es1 ≡ₚ es2 → total_charge es1 = total_charge es2.
Proof. induction 1; rewrite ?total_charge_cons; lia. Qed.

Lemma pinned_charge_perm es1 es2 :
  es1 ≡ₚ es2 → pinned_charge es1 = pinned_charge es2.
Proof. induction 1; rewrite ?pinned_charge_cons; lia. Qed.


Lemma evict_tier_charge p es over kept out :
  evict_tier p es over = (kept, out) →
  total_charge es = total_charge kept + total_charge out ∧
  pinned_charge es = pinned_charge kept ∧
  Forall (λ e, e_refs e = 0%nat) out.
Proof.
  revert over kept out. induction es as [|e es IH]; intros over kept out.
  - intros [= <- <-]. repeat split. constructor.
  - cbn [evict_tier].
    destruct (bool_decide (0 < over) && bool_decide (e_priority e = p)
              && bool_decide (e_refs e = 0%nat)) eqn:Hc.
    + destruct (evict_tier p es (over - e_charge e)) as [k o] eqn:Hr.
      intros [= <- <-]. destruct (IH _ _ _ Hr) as (Ht & Hp & Hz).
      apply andb_true_iff in Hc as [_ He%bool_decide_eq_true].
      rewrite pinned_charge_cons. unfold pinned_part. rewrite He.
      rewrite !total_charge_cons. repeat split; [lia|lia|].
      constructor; assumption.
    + destruct (evict_tier p es over) as [k o] eqn:Hr.
      intros [= <- <-]. destruct (IH _ _ _ Hr) as (Ht & Hp & Hz).
      rewrite !pinned_charge_cons.
      rewrite !total_charge_cons. repeat split; [lia|lia|assumption].
Qed.

Lemma evict_entries_charge es over kept out :
  evict_entries es over = (kept, out) →
  total_charge es = total_charge kept + total_charge out ∧
  pinned_charge es = pinned_charge kept.
Proof.
  unfold evict_entries.
  destruct (evict_tier BOTTOM es over) as [k1 o1] eqn:H1.
  destruct (evict_tier LOW k1 _) as [k2 o2] eqn:H2.
  destruct (evict_tier HIGH k2 _) as [k3 o3] eqn:H3.
  intros [= <- <-].
  apply evict_tier_charge in H1 as (? & ? & _).
  apply evict_tier_charge in H2 as (? & ? & _).
  apply evict_tier_charge in H3 as (? & ? & _).
  rewrite !total_charge_app. split; lia.
Qed.

Lemma offer_fields key obj helper s :
  entries (offer mem key obj helper s) = entries s ∧
  usage (offer mem key obj helper s) = usage s ∧
  pinned_usage (offer mem key obj helper s) = pinned_usage s ∧
  capacity (offer mem key obj helper s) = capacity s ∧
  strict_capacity_limit (offer mem key obj helper s)
    = strict_capacity_limit s ∧
  pending (offer mem key obj helper s) = pending s ∧
  next_handle (offer mem key obj helper s) = next_handle s ∧
  secondary (offer mem key obj helper s) = secondary s ∧
  destroyed (offer mem key obj helper s) = destroyed s.
Proof.
  unfold offer.
  destruct (secondary s) eqn:E; [destruct (supports_secondary mem helper)|];
    cbn; rewrite ?E; repeat split.
Qed.

Lemma offer_slack key obj helper s :
  slack (offer mem key obj helper s) = slack s ∧
  pinned_slack (offer mem key obj helper s) = pinned_slack s.
Proof.
  unfold slack, pinned_slack.
  destruct (offer_fields key obj helper s) as (-> & -> & -> & _).
  split; reflexivity.
Qed.

Lemma evicted_fields e s :
  entries (evicted mem e s) = entries s ∧
  usage (evicted mem e s) = usage s - e_charge e ∧
  pinned_usage (evicted mem e s) = pinned_usage s ∧
  capacity (evicted mem e s) = capacity s ∧
  strict_capacity_limit (evicted mem e s) = strict_capacity_limit s ∧
  pending (evicted mem e s) = pending s ∧
  next_handle (evicted mem e s) = next_handle s ∧
  secondary (evicted mem e s) = secondary s.
Proof.
  destruct (offer_fields (e_key e) (e_obj e) (e_helper e) s)
    as (He & Hu & Hp & Hc & Hs & Hpe & Hn & Hse & _).
  unfold evicted, destroy. cbn. rewrite He, Hu, Hp, Hc, Hs, Hpe, Hn, Hse.
  repeat split.
Qed.

(** Evicting the entries [out] from a state that no longer lists them
    takes their charges out of the usage and touches neither the entries
    nor the pinned usage. *)
Lemma foldl_evicted out s :
  entries (foldl (λ s' e, evicted mem e s') s out) = entries s ∧
  usage (foldl (λ s' e, evicted mem e s') s out)
    = usage s - total_charge out ∧
  pinned_usage (foldl (λ s' e, evicted mem e s') s out) = pinned_usage s ∧
  capacity (foldl (λ s' e, evicted mem e s') s out) = capacity s ∧
  strict_capacity_limit (foldl (λ s' e, evicted mem e s') s out)
    = strict_capacity_limit s ∧
  pending (foldl (λ s' e, evicted mem e s') s out) = pending s ∧
  next_handle (foldl (λ s' e, evicted mem e s') s out) = next_handle s ∧
  secondary (foldl (λ s' e, evicted mem e s') s out) = secondary s.
Proof.
  revert s. induction out as [|e out IH]; intros s.
  - cbn. repeat split. change (total_charge []) with 0. lia.
  - cbn [foldl]. destruct (IH (evicted mem e s))
      as (-> & -> & -> & -> & -> & -> & -> & ->).
    destruct (evicted_fields e s) as (-> & -> & -> & -> & -> & -> & -> & ->).
    rewrite total_charge_cons. repeat split. lia.
Qed.

Lemma make_room_slack s :
  slack (make_room mem s) = slack s ∧
  pinned_slack (make_room mem s) = pinned_slack s.
Proof.
  unfold make_room, slack, pinned_slack.
  destruct (evict_entries (entries s) (usage s - capacity s))
    as [kept out] eqn:He.
  apply evict_entries_charge in He as [Ht Hp].
  destruct (foldl_evicted out (set_entries kept s))
    as (-> & -> & -> & _).
  cbn. split; lia.
Qed.

Lemma make_room_frame s :
  capacity (make_room mem s) = capacity s ∧
  strict_capacity_limit (make_room mem s) = strict_capacity_limit s ∧
  pending (make_room mem s) = pending s ∧
  next_handle (make_room mem s) = next_handle s ∧
  secondary (make_room mem s) = secondary s.
Proof.
  unfold make_room.
  destruct (evict_entries (entries s) (usage s - capacity s))
    as [kept out] eqn:He.
  destruct (foldl_evicted out (set_entries kept s))
    as (_ & _ & _ & -> & -> & -> & -> & ->).
  repeat split.
Qed.

Lemma unbind_slack key s :
  slack (unbind key s) = slack s ∧
  pinned_slack (unbind key s) = pinned_slack s.
Proof.
  unfold unbind, slack, pinned_slack.
  destruct (extract (bound_to key) (entries s)) as [[e rest]|] eqn:He;
    [|split; reflexivity].
  apply extract_Some_perm in He.
  rewrite (total_charge_perm _ _ He), (pinned_charge_perm _ _ He).
  rewrite pinned_charge_cons. unfold pinned_part.
  rewrite total_charge_cons.
  destruct (e_refs e) as [|n] eqn:Hn; cbn.
  - split; lia.
  - rewrite total_charge_app, pinned_charge_app, pinned_charge_cons.
    rewrite total_charge_cons.
    unfold pinned_part. cbn. rewrite Hn.
    change (pinned_charge []) with 0. change (total_charge []) with 0.
    split; lia.
Qed.


Lemma accept_entry_slack h key obj helper charge refs prio s b s' :
  accept_entry mem h key obj helper charge refs prio s = (b, s') →
  slack s' = slack s ∧ pinned_slack s' = pinned_slack s.
Proof.
  unfold accept_entry.
  destruct (make_room_slack (set_usage (usage s + charge) s)) as [Hs Hp].
  set (s1 := make_room mem (set_usage (usage s + charge) s)) in *.
  assert (Hs1 : slack s1 = slack s + charge)
    by (rewrite Hs; unfold slack; cbn; lia).
  assert (Hp1 : pinned_slack s1 = pinned_slack s) by (rewrite Hp; reflexivity).
  destruct (strict_capacity_limit s1 && bool_decide (capacity s1 < usage s1)).
  - intros [= <- <-]. revert Hs1 Hp1. unfold slack, pinned_slack. cbn.
    intros; split; lia.
  - intros [= <- <-]. destruct (unbind_slack key s1) as [Hu Hpu].
    revert Hs1 Hp1 Hu Hpu. unfold slack, pinned_slack. cbn.
    rewrite total_charge_app, pinned_charge_app, pinned_charge_cons.
    rewrite total_charge_cons. unfold pinned_part. cbn.
    change (pinned_charge []) with 0. change (total_charge []) with 0.
    intros; split; lia.
Qed.

Lemma add_ref_slack P e rest s :
  extract P (entries s) = Some (e, rest) →
  slack (add_ref e rest s) = slack s ∧
  pinned_slack (add_ref e rest s) = pinned_slack s.
Proof.
  intros He%extract_Some_perm. unfold add_ref, slack, pinned_slack. cbn.
  rewrite (total_charge_perm _ _ He), (pinned_charge_perm _ _ He).
  rewrite total_charge_app, pinned_charge_app, !pinned_charge_cons.
  rewrite !total_charge_cons. unfold pinned_part. cbn.
  change (pinned_charge []) with 0. change (total_charge []) with 0.
  destruct (e_refs e); split; lia.
Qed.

Lemma resolve_slack p s :
  slack (resolve mem deserialize p s) = slack s ∧
  pinned_slack (resolve mem deserialize p s) = pinned_slack s.
Proof.
  unfold resolve.
  destruct (p_bytes p) as [bytes|]; [|split; reflexivity].
  destruct (mem !! p_helper p) as [hlp|]; [|split; reflexivity].
  destruct (deserialize _ _ _) as [[obj charge]|]; [|split; reflexivity].
  destruct (bool_decide (obj = nullptr)); [split; reflexivity|].
  destruct (accept_entry _ _ _ _ _ _ _ _ _) as [[] s1] eqn:Ha;
    apply accept_entry_slack in Ha as [Hs Hp].
  - split; assumption.
  - rewrite <- Hs, <- Hp. split; reflexivity.
Qed.

Lemma PromotionPipeline_slack tier key helper ctx prio wait s :
  slack (snd (PromotionPipeline mem deserialize tier key helper ctx prio
                                wait s)) = slack s ∧
  pinned_slack (snd (PromotionPipeline mem deserialize tier key helper ctx
                                       prio wait s)) = pinned_slack s.
Proof.
  unfold PromotionPipeline. destruct wait; cbn [snd].
  - rewrite (proj1 (resolve_slack _ _)), (proj2 (resolve_slack _ _)).
    split; reflexivity.
  - split; reflexivity.
Qed.

Lemma Insert_slack key obj helper charge handle_out prio s st h s' :
  Insert mem key obj helper charge handle_out prio s = Some (st, h, s') →
  slack s' = slack s ∧ pinned_slack s' = pinned_slack s.
Proof.
  unfold Insert. destruct (mem !! helper) as [hlp|]; [|discriminate].
  destruct (IsSecondaryCacheCompatible hlp && bool_decide (obj = nullptr));
    [discriminate|].
  destruct (accept_entry _ _ _ _ _ _ _ _ _) as [[] s2] eqn:Ha;
    apply accept_entry_slack in Ha as [Hs Hp]; intros [= <- <- <-];
    destruct (offer_slack key obj helper s) as [Hos Hop].
  - unfold slack, pinned_slack in *. cbn. split; lia.
  - split; congruence.
Qed.

Lemma Lookup_slack key helper ctx prio wait stats s :
  slack (snd (Lookup mem deserialize key helper ctx prio wait stats s))
    = slack s ∧
  pinned_slack (snd (Lookup mem deserialize key helper ctx prio wait stats
                            s)) = pinned_slack s.
Proof.
  unfold Lookup.
  destruct (extract (bound_to key) (entries s)) as [[e rest]|] eqn:He.
  - cbn [snd]. eapply add_ref_slack. exact He.
  - destruct (secondary s) as [tier|]; [|split; reflexivity].
    destruct (supports_reconstruction mem helper); [|split; reflexivity].
    apply PromotionPipeline_slack.
Qed.

Lemma Ref_slack handle s b s' :
  Ref handle s = Some (b, s') →
  slack s' = slack s ∧ pinned_slack s' = pinned_slack s.
Proof.
  unfold Ref.
  destruct (extract (has_handle handle) (entries s)) as [[e rest]|] eqn:He.
  - intros [= <- <-]. eapply add_ref_slack. exact He.
  - destruct (extract (pending_handle handle) (pending s)) as [[p ?]|].
    + destruct (p_state p); intros [= <- <-]; split; reflexivity.
    + intros [= <- <-]; split; reflexivity.
Qed.

Lemma Release_slack handle erase_if_last_ref s b s' :
  Release handle erase_if_last_ref s = Some (b, s') →
  slack s' = slack s ∧ pinned_slack s' = pinned_slack s.
Proof.
  unfold Release.
  destruct (extract (has_handle handle) (entries s)) as [[e rest]|] eqn:He.
  - apply extract_Some_perm in He.
    unfold slack, pinned_slack.
    rewrite (total_charge_perm _ _ He), (pinned_charge_perm _ _ He).
    rewrite pinned_charge_cons, total_charge_cons. unfold pinned_part.
    destruct (e_refs e) as [|[|n]] eqn:Hn; [discriminate| |].
    + destruct (erase_if_last_ref || negb (e_in_table e));
        intros [= <- <-]; cbn;
        rewrite ?total_charge_app, ?pinned_charge_app, ?pinned_charge_cons,
                ?total_charge_cons; unfold pinned_part; cbn;
        change (pinned_charge []) with 0; change (total_charge []) with 0;
        split; lia.
    + intros [= <- <-]; cbn.
      rewrite total_charge_app, pinned_charge_app, pinned_charge_cons,
              total_charge_cons. unfold pinned_part. cbn.
      change (pinned_charge []) with 0. change (total_charge []) with 0.
      split; lia.
  - destruct (extract (pending_handle handle) (pending s)) as [[p ?]|];
      [|discriminate].
    destruct (p_state p); try discriminate.
    intros [= <- <-]; split; reflexivity.
Qed.

Lemma step_slack op s s' :
  step mem deserialize op s = Some s' →
  slack s' = slack s ∧ pinned_slack s' = pinned_slack s.
Proof.
  destruct op as [key obj helper charge handle_out prio
                 |key helper ctx prio wait stats|handle|handle e|key];
    cbn [step].
  - destruct (Insert _ _ _ _ _ _ _ _) as [[[st h] s1]|] eqn:Hi;
      [|discriminate].
    intros [= <-]. eapply Insert_slack. exact Hi.
  - intros [= <-]. apply Lookup_slack.
  - destruct (Ref _ _) as [[b s1]|] eqn:Hr; [|discriminate].
    intros [= <-]. eapply Ref_slack. exact Hr.
  - destruct (Release _ _ _) as [[b s1]|] eqn:Hr; [|discriminate].
    intros [= <-]. eapply Release_slack. exact Hr.
  - intros [= <-]. apply unbind_slack.
Qed.

Lemma accounted_slack s :
  accounted s ↔ slack s = 0 ∧ pinned_slack s = 0.
Proof. unfold accounted, slack, pinned_slack. lia. Qed.

(** Every operation keeps the accounting consistent. *)
Lemma step_accounted op s s' :
  accounted s → step mem deserialize op s = Some s' → accounted s'.
Proof.
  rewrite !accounted_slack. intros [Hs Hp] [Hs' Hp']%step_slack.
  split; congruence.
Qed.

Lemma run_accounted ops s s' :
  accounted s → run mem deserialize ops s = Some s' → accounted s'.
Proof.
  revert s. induction ops as [|op ops IH]; intros s Hs; cbn [run].
  - intros [= <-]. exact Hs.
  - destruct (step mem deserialize op s) as [s1|] eqn:H1; [|discriminate].
    apply IH. eapply step_accounted; eassumption.
Qed.

Lemma new_cache_accounted cap strict tier :
  accounted (new_cache cap strict tier).
Proof. split; reflexivity. Qed.


(** C9: after every sequence of [Insert], [Lookup], [Ref], [Release] and
    [Erase] on a new cache, [GetUsage()] is the sum of the charges of the
    resident entries and [GetPinnedUsage()] the sum of the charges of the
    resident entries whose reference count is not zero. *)
Theorem usage_is_sum_of_resident_charges cap strict tier ops s :
  run mem deserialize ops (new_cache cap strict tier) = Some s →
  GetUsage s = total_charge (entries s) ∧
  GetPinnedUsage s
    = total_charge (filter (λ e, e_refs e ≠ 0%nat) (entries s)).
Proof.
  intros Hrun.
  exact (run_accounted ops _ s (new_cache_accounted cap strict tier) Hrun).
Qed.

Lemma evict_tier_all_referenced p es over :
  Forall referenced es → evict_tier p es over = (es, []).
Proof.
  induction 1 as [|e es He _ IH]; [reflexivity|].
  cbn [evict_tier]. rewrite IH.
  rewrite (bool_decide_eq_false_2 (e_refs e = 0%nat)) by exact He.
  rewrite andb_false_r. reflexivity.
Qed.

Lemma make_room_all_referenced s :
  Forall referenced (entries s) → make_room mem s = s.
Proof.
  intros Hall. unfold make_room, evict_entries.
  rewrite !evict_tier_all_referenced by assumption.
  cbn. destruct s; reflexivity.
Qed.

(** C8: with the strict capacity limit set, the usage at the capacity and
    every resident entry referenced, a legal [Insert] of a positive charge
    returns [MemoryLimit] and no handle; the usage is what it was, the
    destroy callback was not invoked, and the cache has the entries it had
    and so holds nothing of the object. *)
Theorem strict_insert_at_capacity_rejected
    key obj helper hlp charge handle_out prio s :
  mem !! helper = Some hlp →
  (IsSecondaryCacheCompatible hlp = true → obj ≠ nullptr) →
  strict_capacity_limit s = true →
  GetUsage s = GetCapacity s →
  Forall referenced (entries s) →
  0 < charge →
  ∃ s', Insert mem key obj helper charge handle_out prio s
          = Some (MemoryLimit, None, s') ∧
        GetUsage s' = GetUsage s ∧
        GetPinnedUsage s' = GetPinnedUsage s ∧
        destroyed s' = destroyed s ∧
        entries s' = entries s ∧
        pending s' = pending s.
Proof.
  unfold GetUsage, GetCapacity, GetPinnedUsage.
  intros Hh Hobj Hstrict Hfull Hall Hpos.
  destruct (offer_fields key obj helper s)
    as (He & Hu & Hp & Hc & Hs & Hpe & Hn & Hse & Hd).
  unfold Insert. rewrite Hh.
  destruct (IsSecondaryCacheCompatible hlp && bool_decide _) eqn:Hpre.
  { apply andb_true_iff in Hpre as [Hcompat Hnull%bool_decide_eq_true].
    destruct (Hobj Hcompat Hnull). }
  unfold accept_entry.
  rewrite make_room_all_referenced by (cbn; rewrite He; exact Hall).
  cbn [strict_capacity_limit capacity usage set_usage].
  rewrite Hs, Hstrict, Hc, Hu.
  rewrite bool_decide_eq_true_2 by lia. cbn [andb].
  eexists. split; [reflexivity|]. cbn -[offer].
  rewrite Hp, Hd, He, Hpe. repeat split. lia.
Qed.

(** What [IsReady] of the cache answers, by the state of the handle: true in
    the Present, Failed and PendingReady states, false exactly in the
    PendingNotReady state. *)
Lemma IsReady_handle_state handle s :
  (∀ st, handle_state handle s = Some st →
         st ∈ [Present; Failed; PendingReady] → IsReady handle s = true) ∧
  (IsReady handle s = false ↔
   handle_state handle s = Some PendingNotReady).
Proof.
  unfold IsReady, handle_state.
  destruct (extract (pending_handle handle) (pending s)) as [[p rest]|].
  - split.
    + intros st [= <-] Hst. destruct (p_state p); try reflexivity.
      repeat (apply elem_of_cons in Hst as [Hst|Hst]; [discriminate|]).
      apply elem_of_nil in Hst. contradiction.
    + destruct (p_state p); split; congruence.
  - split; [reflexivity|].
    destruct (extract (has_handle handle) (entries s)); split; discriminate.
Qed.

(** *** The eviction scan does what §4.1 asks of it *)

Lemma evict_tier_not_over p es over :
  over ≤ 0 → evict_tier p es over = (es, []).
Proof.
  intros Hover. induction es as [|e es IH]; [reflexivity|].
  cbn [evict_tier]. rewrite IH.
  rewrite (bool_decide_eq_false_2 (0 < over)) by lia. reflexivity.
Qed.

Lemma evict_tier_kept_Forall (P : Entry → Prop) p es over kept out :
  evict_tier p es over = (kept, out) → Forall P es → Forall P kept.
Proof.
  revert over kept out. induction es as [|e es IH]; intros over kept out.
  - intros [= <- <-] _. constructor.
  - cbn [evict_tier]. intros Hev Hall.
    apply Forall_cons in Hall as [He Hall].
    destruct (_ && _ && _).
    + destruct (evict_tier p es (over - e_charge e)) as [k o] eqn:Hr.
      injection Hev as <- <-. eapply IH; eassumption.
    + destruct (evict_tier p es over) as [k o] eqn:Hr.
      injection Hev as <- <-. constructor; [exact He|].
      eapply IH; eassumption.
Qed.

(** A scan stops only when the usage is no longer over the capacity or when
    it has evicted every unreferenced entry of its priority. *)
Lemma evict_tier_enough p es over kept out :
  evict_tier p es over = (kept, out) →
  over - total_charge out ≤ 0 ∨
  Forall (λ e, e_priority e = p → referenced e) kept.
Proof.
  revert over kept out. induction es as [|e es IH]; intros over kept out.
  - intros [= <- <-]. right. constructor.
  - cbn [evict_tier].
    destruct (bool_decide (0 < over)) eqn:Hover; cbn [andb].
    + destruct (bool_decide (e_priority e = p)) eqn:Hp; cbn [andb].
      * destruct (bool_decide (e_refs e = 0%nat)) eqn:Hr.
        -- destruct (evict_tier p es (over - e_charge e)) as [k o] eqn:Hev.
           intros [= <- <-]. rewrite total_charge_cons.
           destruct (IH _ _ _ Hev) as [H|H]; [left; lia|right; exact H].
        -- destruct (evict_tier p es over) as [k o] eqn:Hev.
           intros [= <- <-].
           destruct (IH _ _ _ Hev) as [H|H]; [left; exact H|right].
           constructor; [|exact H].
           intros _. apply bool_decide_eq_false in Hr. exact Hr.
      * destruct (evict_tier p es over) as [k o] eqn:Hev.
        intros [= <- <-].
        destruct (IH _ _ _ Hev) as [H|H]; [left; exact H|right].
        constructor; [|exact H].
        intros Hp'. apply bool_decide_eq_false in Hp. contradiction.
    + apply bool_decide_eq_false in Hover.
      destruct (evict_tier p es over) as [k o] eqn:Hev.
      rewrite evict_tier_not_over in Hev by lia. injection Hev as <- <-.
      intros [= <- <-]. left. change (total_charge []) with 0. lia.
Qed.

(** Eviction never takes a referenced entry. *)
Lemma evict_entries_spares_referenced es over kept out :
  evict_entries es over = (kept, out) →
  Forall (λ e, e_refs e = 0%nat) out ∧
  filter referenced kept = filter referenced es.
Proof.
  assert (Htier : ∀ p es over kept out,
             evict_tier p es over = (kept, out) →
             filter referenced kept = filter referenced es).
  { intros p es'. induction es' as [|e es' IH]; intros over' k o.
    - intros [= <- <-]. reflexivity.
    - cbn [evict_tier].
      destruct (_ && _ && bool_decide (e_refs e = 0%nat)) eqn:Hc.
      + destruct (evict_tier p es' (over' - e_charge e)) as [k' o'] eqn:Hr.
        intros [= <- <-].
        apply andb_true_iff in Hc as [_ He%bool_decide_eq_true].
        rewrite filter_cons_False by (unfold referenced; rewrite He; auto).
        eapply IH. exact Hr.
      + destruct (evict_tier p es' over') as [k' o'] eqn:Hr.
        intros [= <- <-]. rewrite !filter_cons.
        rewrite (IH _ _ _ Hr). reflexivity. }
  unfold evict_entries.
  destruct (evict_tier BOTTOM es over) as [k1 o1] eqn:H1.
  destruct (evict_tier LOW k1 _) as [k2 o2] eqn:H2.
  destruct (evict_tier HIGH k2 _) as [k3 o3] eqn:H3.
  intros [= <- <-]. split.
  - apply evict_tier_charge in H1 as (_ & _ & ?).
    apply evict_tier_charge in H2 as (_ & _ & ?).
    apply evict_tier_charge in H3 as (_ & _ & ?).
    rewrite !Forall_app. auto.
  - rewrite (Htier _ _ _ _ _ H3), (Htier _ _ _ _ _ H2).
    exact (Htier _ _ _ _ _ H1).
Qed.

(** Eviction goes on until the usage is at or below the capacity or no
    evictable entry remains. *)
Lemma evict_entries_enough es over kept out :
  evict_entries es over = (kept, out) →
  over - total_charge out ≤ 0 ∨ Forall referenced kept.
Proof.
  unfold evict_entries.
  destruct (evict_tier BOTTOM es over) as [k1 o1] eqn:H1.
  destruct (evict_tier LOW k1 _) as [k2 o2] eqn:H2.
  destruct (evict_tier HIGH k2 _) as [k3 o3] eqn:H3.
  intros [= <- <-]. rewrite !total_charge_app.
  destruct (evict_tier_enough _ _ _ _ _ H1) as [E1|F1].
  { rewrite evict_tier_not_over in H2 by exact E1. injection H2 as <- <-.
    change (total_charge []) with 0 in H3.
    rewrite evict_tier_not_over in H3 by lia. injection H3 as <- <-.
    left. change (total_charge []) with 0. lia. }
  destruct (evict_tier_enough _ _ _ _ _ H2) as [E2|F2].
  { rewrite evict_tier_not_over in H3 by lia. injection H3 as <- <-.
    left. change (total_charge []) with 0. lia. }
  destruct (evict_tier_enough _ _ _ _ _ H3) as [E3|F3]; [left; lia|right].
  pose proof (evict_tier_kept_Forall _ _ _ _ _ _ H2 F1) as F1'.
  pose proof (evict_tier_kept_Forall _ _ _ _ _ _ H3 F1') as F1''.
  pose proof (evict_tier_kept_Forall _ _ _ _ _ _ H3 F2) as F2'.
  rewrite Forall_forall in *. intros e He.
  destruct (e_priority e) eqn:Hp; auto.
Qed.

Lemma make_room_enough s :
  usage (make_room mem s) ≤ capacity (make_room mem s) ∨
  Forall referenced (entries (make_room mem s)).
Proof.
  unfold make_room.
  destruct (evict_entries (entries s) (usage s - capacity s))
    as [kept out] eqn:He.
  destruct (foldl_evicted out (set_entries kept s))
    as (-> & -> & _ & -> & _).
  cbn. destruct (evict_entries_enough _ _ _ _ He); [left; lia|right; done].
Qed.

Lemma make_room_spares_referenced s :
  filter referenced (entries (make_room mem s))
    = filter referenced (entries s).
Proof.
  unfold make_room.
  destruct (evict_entries (entries s) (usage s - capacity s))
    as [kept out] eqn:He.
  destruct (foldl_evicted out (set_entries kept s)) as (-> & _).
  cbn. apply (evict_entries_spares_referenced _ _ _ _ He).
Qed.

(** [Wait], [WaitAll] and [SetCapacity] keep the accounting consistent as
    well. *)
Lemma Wait_accounted handle s :
  accounted s → accounted (Wait mem deserialize handle s).
Proof.
  rewrite !accounted_slack. unfold Wait.
  destruct (extract (pending_handle handle) (pending s)) as [[p rest]|];
    [|done].
  destruct (p_state p); try done;
    rewrite (proj1 (resolve_slack _ _)), (proj2 (resolve_slack _ _)); done.
Qed.

Lemma WaitAll_accounted handles s :
  accounted s → accounted (WaitAll mem deserialize handles s).
Proof.
  unfold WaitAll. revert s.
  induction handles as [|h handles IH]; intros s Hs; [exact Hs|].
  cbn [foldl]. apply IH, Wait_accounted, Hs.
Qed.

Lemma SetCapacity_accounted cap s :
  accounted s → accounted (SetCapacity mem cap s).
Proof.
  rewrite !accounted_slack. unfold SetCapacity.
  destruct (make_room_slack (set_capacity cap s)) as [-> ->]. done.
Qed.

(** The scenario of §8: capacity 100, strict.  "a" of charge 60 is inserted
    and left unreferenced; the insert of "b" of charge 50 evicts "a"; the
    release of "b" unpins its charge and leaves the usage; the erasure of
    "b" brings the usage to zero, and each object was destroyed once. *)
Example scenario_capacity_100 :
  let proj s := (usage s, pinned_usage s, e_key <$> entries s, destroyed s) in
  let run ops :=
    proj <$> run example_mem2 example_deserialize ops (new_cache 100 true None)
  in
  run [OpInsert "a" 1000 16 60 false LOW] = Some (60, 0, ["a"], []) ∧
  run [OpInsert "a" 1000 16 60 false LOW; OpInsert "b" 2000 16 50 true LOW]
    = Some (50, 50, ["b"], [(16, 1000)]) ∧
  run [OpInsert "a" 1000 16 60 false LOW; OpInsert "b" 2000 16 50 true LOW;
       OpRelease 2 false]
    = Some (50, 0, ["b"], [(16, 1000)]) ∧
  run [OpInsert "a" 1000 16 60 false LOW; OpInsert "b" 2000 16 50 true LOW;
       OpRelease 2 false; OpErase "b"]
    = Some (0, 0, [], [(16, 1000); (16, 2000)]).
Proof. vm_compute. repeat split. Qed.


(** *** A cache with no secondary tier has no pending handle *)

Lemma destroy_frame e s :
  pending (destroy e s) = pending s ∧ secondary (destroy e s) = secondary s.
Proof. split; reflexivity. Qed.

Lemma unbind_frame key s :
  pending (unbind key s) = pending s ∧
  secondary (unbind key s) = secondary s.
Proof.
  unfold unbind.
  destruct (extract (bound_to key) (entries s)) as [[e rest]|];
    [destruct (e_refs e)|]; split; reflexivity.
Qed.

Lemma accept_entry_frame h key obj helper charge refs prio s :
  pending (snd (accept_entry mem h key obj helper charge refs prio s))
    = pending s ∧
  secondary (snd (accept_entry mem h key obj helper charge refs prio s))
    = secondary s.
Proof.
  unfold accept_entry.
  destruct (make_room_frame (set_usage (usage s + charge) s))
    as (_ & _ & Hp & _ & Hs).
  set (s1 := make_room mem (set_usage (usage s + charge) s)) in *.
  destruct (strict_capacity_limit s1 && bool_decide (capacity s1 < usage s1));
    cbn [snd].
  - cbn. rewrite Hp, Hs. split; reflexivity.
  - cbn. destruct (unbind_frame key s1) as [-> ->].
    rewrite Hp, Hs. split; reflexivity.
Qed.

Lemma step_no_tier op s s' :
  no_tier s → step mem deserialize op s = Some s' → no_tier s'.
Proof.
  unfold no_tier. intros [Hs Hp].
  destruct op as [key obj helper charge handle_out prio
                 |key helper ctx prio wait stats|handle|handle erase|key];
    cbn [step].
  - unfold Insert. destruct (mem !! helper) as [hlp|]; [|discriminate].
    destruct (_ && _); [discriminate|].
    destruct (offer_fields key obj helper s)
      as (_ & _ & _ & _ & _ & Hop & _ & Hos & _).
    pose proof (accept_entry_frame (next_handle s) key obj helper charge
                  (if handle_out then 1%nat else 0%nat) prio
                  (offer mem key obj helper s)) as [Hap Has].
    destruct (accept_entry _ _ _ _ _ _ _ _ _) as [[] s2];
      cbn [snd] in Hap, Has; intros [= <-]; cbn;
      rewrite Hap, Has, Hop, Hos; auto.
  - unfold Lookup.
    destruct (extract (bound_to key) (entries s)) as [[e rest]|].
    + intros [= <-]. cbn. auto.
    + rewrite Hs. intros [= <-]. auto.
  - unfold Ref.
    destruct (extract (has_handle handle) (entries s)) as [[e rest]|].
    + intros [= <-]. cbn. auto.
    + rewrite Hp. cbn. intros [= <-]. auto.
  - unfold Release.
    destruct (extract (has_handle handle) (entries s)) as [[e rest]|].
    + destruct (e_refs e) as [|[|n]]; [discriminate| |].
      * destruct (_ || _); intros [= <-]; cbn; auto.
      * intros [= <-]. cbn. auto.
    + rewrite Hp. discriminate.
  - intros [= <-]. unfold Erase.
    destruct (unbind_frame key s) as [-> ->]. auto.
Qed.

Lemma run_no_tier ops cap strict s :
  run mem deserialize ops (new_cache cap strict None) = Some s → no_tier s.
Proof.
  assert (Hgen : ∀ s0, no_tier s0 →
                       run mem deserialize ops s0 = Some s → no_tier s).
  { induction ops as [|op ops IH]; intros s0 H0; cbn [run].
    - intros [= <-]. exact H0.
    - destruct (step mem deserialize op s0) as [s1|] eqn:H1; [|discriminate].
      apply IH. eapply step_no_tier; eassumption. }
  apply Hgen. split; reflexivity.
Qed.

(** On such a cache [IsReady] is true and [Wait] and [WaitAll] change
    nothing, as with the bodies of [Cache]. *)
Lemma no_tier_IsReady_Wait s handle handles :
  no_tier s →
  IsReady handle s = true ∧
  Wait mem deserialize handle s = s ∧
  WaitAll mem deserialize handles s = s.
Proof.
  intros [_ Hp].
  assert (Hw : ∀ h, Wait mem deserialize h s = s)
    by (intros h; unfold Wait; rewrite Hp; reflexivity).
  split; [unfold IsReady; rewrite Hp; reflexivity|].
  split; [apply Hw|].
  unfold WaitAll. induction handles as [|h hs IH]; [reflexivity|].
  cbn [foldl]. rewrite Hw. exact IH.
Qed.

End CacheCoreFacts.

(** The run of [example_ops]: every operation is legal, and the counters of
    the final state are the sums over its one resident entry. *)
Lemma usage_is_sum_of_resident_charges_witness :
  CacheCore.GetUsage example_final
    = CacheCore.total_charge (CacheCore.entries example_final) ∧
  CacheCore.GetPinnedUsage example_final
    = CacheCore.total_charge
        (filter (λ e, CacheCore.e_refs e ≠ 0%nat)
                (CacheCore.entries example_final)).
Proof.
  apply (usage_is_sum_of_resident_charges example_mem2 example_deserialize
           100 true (Some example_tier) example_ops example_final).
  vm_compute. reflexivity.
Defined.

(** An insert of charge 50 into [example_full]. *)
Lemma strict_insert_at_capacity_rejected_witness :
  ∃ s', CacheCore.Insert example_mem2 "b" 2000 64 50 true LOW example_full
          = Some (MemoryLimit, None, s') ∧
        CacheCore.GetUsage s' = CacheCore.GetUsage example_full ∧
        CacheCore.GetPinnedUsage s' = CacheCore.GetPinnedUsage example_full ∧
        CacheCore.destroyed s' = CacheCore.destroyed example_full ∧
        CacheCore.entries s' = CacheCore.entries example_full ∧
        CacheCore.pending s' = CacheCore.pending example_full.
Proof.
  apply (strict_insert_at_capacity_rejected example_mem2 "b" 2000 64
           example_helper 50 true LOW example_full).
  - reflexivity.
  - intros _. discriminate.
  - reflexivity.
  - reflexivity.
  - repeat constructor. discriminate.
  - lia.
Defined.

(** * Further properties of the header *)

(** ** When the six-argument constructor passes its assertions *)

(** The converse of [CacheItemHelper_ctor6_Some]: when the object of the
    member initialisers satisfies what the assertions check, the constructor
    returns. *)
Lemma CacheItemHelper_ctor6_complete mem this r d sz sv cr w :
  let self := {| del_cb := d; size_cb := sz; saveto_cb := sv; create_cb := cr;
                 role := r; without_secondary_compat := w |} in
  helper_invariant (<[this := self]> mem) self →
  CacheItemHelper_ctor6 mem this r d sz sv cr w
  = Some (<[this := self]> mem).
Proof.
  cbn zeta. intros (Hsv & Hcr & w' & Hw & Hr & Hd & Hno).
  cbn [size_cb saveto_cb create_cb role del_cb without_secondary_compat] in *.
  unfold CacheItemHelper_ctor6. cbn zeta.
  cbn [size_cb saveto_cb create_cb role del_cb without_secondary_compat].
  rewrite Hw. unfold cxx_assert.
  rewrite (bool_decide_eq_true_2 (bool_decide (sz ≠ nullptr)
                                  = bool_decide (sv ≠ nullptr)))
    by (repeat case_bool_decide; tauto).
  rewrite (bool_decide_eq_true_2 (bool_decide (sz ≠ nullptr)
                                  = bool_decide (cr ≠ nullptr)))
    by (repeat case_bool_decide; tauto).
  rewrite (bool_decide_eq_true_2 (r = role w')) by exact Hr.
  rewrite (bool_decide_eq_true_2 (d = del_cb w')) by exact Hd.
  rewrite Hno. reflexivity.
Qed.

(** A constructor either aborts or stores the object of its member
    initialisers at [this]. *)
Lemma CacheItemHelper_ctor6_None_or_Some mem this r d sz sv cr w :
  CacheItemHelper_ctor6 mem this r d sz sv cr w = None ∨
  CacheItemHelper_ctor6 mem this r d sz sv cr w
  = Some (<[this := {| del_cb := d; size_cb := sz; saveto_cb := sv;
                       create_cb := cr; role := r;
                       without_secondary_compat := w |}]> mem).
Proof.
  destruct (CacheItemHelper_ctor6 mem this r d sz sv cr w) as [mem'|] eqn:Hc;
    [right|left; reflexivity].
  apply CacheItemHelper_ctor6_Some in Hc as [-> _]. reflexivity.
Qed.

(** X1: with a [_without_secondary_compat] other than [this], the
    six-argument constructor returns exactly when the three secondary-cache
    callbacks are all null or all non-null and the pointer leads to a helper
    in memory that has the same role, the same deleter and no [size_cb]; it
    then stores the new helper at [this].  In every other case it aborts. *)
Theorem CacheItemHelper_ctor6_passes_iff mem this r d sz sv cr w :
  w ≠ this →
  let self := {| del_cb := d; size_cb := sz; saveto_cb := sv; create_cb := cr;
                 role := r; without_secondary_compat := w |} in
  let ok :=
    ((sz = nullptr ∧ sv = nullptr ∧ cr = nullptr) ∨
     (sz ≠ nullptr ∧ sv ≠ nullptr ∧ cr ≠ nullptr)) ∧
    ∃ hw, mem !! w = Some hw ∧ role hw = r ∧ del_cb hw = d ∧
          size_cb hw = nullptr in
  (CacheItemHelper_ctor6 mem this r d sz sv cr w
     = Some (<[this := self]> mem) ↔ ok) ∧
  (CacheItemHelper_ctor6 mem this r d sz sv cr w = None ↔ ¬ ok).
Proof.
  intros Hne self ok.
  assert (Hiff : CacheItemHelper_ctor6 mem this r d sz sv cr w
                   = Some (<[this := self]> mem) ↔ ok).
  { split.
    - intros Hc. apply CacheItemHelper_ctor6_Some in Hc
        as [_ (Hsv & Hcr & hw & Hw & Hr & Hd & Hno)].
      cbn [size_cb saveto_cb create_cb role del_cb
           without_secondary_compat] in *.
      rewrite lookup_insert_ne in Hw by congruence.
      split.
      + destruct (decide (sz = nullptr)); destruct (decide (sv = nullptr));
          destruct (decide (cr = nullptr)); tauto.
      + exists hw. repeat split; try congruence.
        unfold IsSecondaryCacheCompatible in Hno.
        apply bool_decide_eq_false in Hno.
        destruct (decide (size_cb hw = nullptr)); tauto.
    - intros [Hall (hw & Hw & Hr & Hd & Hsz)].
      apply CacheItemHelper_ctor6_complete.
      split; [|split];
        cbn [size_cb saveto_cb create_cb role del_cb
             without_secondary_compat].
      + tauto.
      + tauto.
      + exists hw. rewrite lookup_insert_ne by congruence.
        repeat split; try congruence.
        unfold IsSecondaryCacheCompatible. rewrite Hsz.
        apply bool_decide_eq_false_2. auto. }
  split; [exact Hiff|].
  destruct (CacheItemHelper_ctor6_None_or_Some mem this r d sz sv cr w)
    as [Hn|Hs].
  - split; [|intros _; exact Hn].
    intros _ Hok. apply Hiff in Hok. fold self in Hok. congruence.
  - split; [fold self in Hs; congruence|].
    intros Hnot. destruct Hnot. apply Hiff. exact Hs.
Qed.

(** The helper with three callbacks at address 64, on top of the plain one
    at address 16. *)
Lemma CacheItemHelper_ctor6_passes_iff_witness :
  (CacheItemHelper_ctor6 example_mem 64 (kRole 0) 7 8 9 10 16
     = Some (<[64 := example_helper]> example_mem) ↔
   ((8 = nullptr ∧ 9 = nullptr ∧ 10 = nullptr) ∨
    (8 ≠ nullptr ∧ 9 ≠ nullptr ∧ 10 ≠ nullptr)) ∧
   ∃ hw, example_mem !! 16 = Some hw ∧ role hw = kRole 0 ∧ del_cb hw = 7 ∧
         size_cb hw = nullptr) ∧
  (CacheItemHelper_ctor6 example_mem 64 (kRole 0) 7 8 9 10 16 = None ↔
   ¬ (((8 = nullptr ∧ 9 = nullptr ∧ 10 = nullptr) ∨
       (8 ≠ nullptr ∧ 9 ≠ nullptr ∧ 10 ≠ nullptr)) ∧
      ∃ hw, example_mem !! 16 = Some hw ∧ role hw = kRole 0 ∧
            del_cb hw = 7 ∧ size_cb hw = nullptr)).
Proof.
  apply (CacheItemHelper_ctor6_passes_iff example_mem 64 (kRole 0)
           7 8 9 10 16).
  discriminate.
Defined.

(** X2: a helper that names itself as its [without_secondary_compat] can be
    built exactly when it has none of the three secondary-cache callbacks:
    with any of them the constructor aborts, whatever the memory holds. *)
Theorem CacheItemHelper_ctor6_self_iff mem this r d sz sv cr :
  (CacheItemHelper_ctor6 mem this r d sz sv cr this
     = Some (<[this := {| del_cb := d; size_cb := sz; saveto_cb := sv;
                          create_cb := cr; role := r;
                          without_secondary_compat := this |}]> mem) ↔
   sz = nullptr ∧ sv = nullptr ∧ cr = nullptr) ∧
  (CacheItemHelper_ctor6 mem this r d sz sv cr this = None ↔
   ¬ (sz = nullptr ∧ sv = nullptr ∧ cr = nullptr)).
Proof.
  set (self := {| del_cb := d; size_cb := sz; saveto_cb := sv;
                  create_cb := cr; role := r;
                  without_secondary_compat := this |}).
  assert (Hiff : CacheItemHelper_ctor6 mem this r d sz sv cr this
                   = Some (<[this := self]> mem) ↔
                 sz = nullptr ∧ sv = nullptr ∧ cr = nullptr).
  { split.
    - intros Hc. apply CacheItemHelper_ctor6_Some in Hc
        as [_ (Hsv & Hcr & hw & Hw & _ & _ & Hno)].
      cbn [size_cb saveto_cb create_cb without_secondary_compat] in *.
      rewrite lookup_insert_eq in Hw. injection Hw as <-.
      unfold IsSecondaryCacheCompatible in Hno. cbn [size_cb] in Hno.
      apply bool_decide_eq_false in Hno.
      destruct (decide (sz = nullptr)); destruct (decide (sv = nullptr));
        destruct (decide (cr = nullptr)); tauto.
    - intros (-> & -> & ->). apply CacheItemHelper_ctor2_Some. }
  split; [exact Hiff|].
  destruct (CacheItemHelper_ctor6_None_or_Some mem this r d sz sv cr this)
    as [Hn|Hs].
  - split; [|intros _; exact Hn].
    intros _ Hok. apply Hiff in Hok. congruence.
  - split; [fold self in Hs; congruence|].
    intros Hnot. destruct Hnot. apply Hiff. exact Hs.
Qed.

(** X3: the documented way to a helper with secondary-cache support works:
    the two-argument constructor at [a] followed by the six-argument one at
    another address [b], with the same role and deleter, three non-null
    callbacks and [a] as [without_secondary_compat], both return; the memory
    then holds the plain helper at [a], the capable one at [b], and nothing
    else has changed. *)
Theorem CacheItemHelper_ctor2_then_ctor6 mem a b r d sz sv cr :
  a ≠ b → sz ≠ nullptr → sv ≠ nullptr → cr ≠ nullptr →
  ∃ mem1 mem2 ha hb,
    CacheItemHelper_ctor2 mem a r d = Some mem1 ∧
    CacheItemHelper_ctor6 mem1 b r d sz sv cr a = Some mem2 ∧
    mem2 !! a = Some ha ∧ mem2 !! b = Some hb ∧
    IsSecondaryCacheCompatible ha = false ∧
    IsSecondaryCacheCompatible hb = true ∧
    without_secondary_compat hb = a ∧ without_secondary_compat ha = a ∧
    role ha = role hb ∧ del_cb ha = del_cb hb ∧
    (∀ p, p ≠ a → p ≠ b → mem2 !! p = mem !! p).
Proof.
  intros Hab Hsz Hsv Hcr.
  set (ha := {| del_cb := d; size_cb := nullptr; saveto_cb := nullptr;
                create_cb := nullptr; role := r;
                without_secondary_compat := a |}).
  set (hb := {| del_cb := d; size_cb := sz; saveto_cb := sv;
                create_cb := cr; role := r;
                without_secondary_compat := a |}).
  exists (<[a := ha]> mem), (<[b := hb]> (<[a := ha]> mem)), ha, hb.
  split; [apply CacheItemHelper_ctor2_Some|].
  split.
  { apply CacheItemHelper_ctor6_complete.
    split; [|split];
      cbn [size_cb saveto_cb create_cb role del_cb without_secondary_compat].
    - tauto.
    - tauto.
    - exists ha. rewrite lookup_insert_ne by congruence.
      rewrite lookup_insert_eq. repeat split. }
  split; [rewrite lookup_insert_ne by congruence; apply lookup_insert_eq|].
  split; [apply lookup_insert_eq|].
  split; [reflexivity|].
  split; [apply bool_decide_eq_true_2; exact Hsz|].
  repeat split.
  intros p Hpa Hpb. rewrite !lookup_insert_ne by congruence. reflexivity.
Qed.

Lemma CacheItemHelper_ctor2_then_ctor6_witness :
  ∃ mem1 mem2 ha hb,
    CacheItemHelper_ctor2 ∅ 16 (kRole 0) 7 = Some mem1 ∧
    CacheItemHelper_ctor6 mem1 64 (kRole 0) 7 8 9 10 16 = Some mem2 ∧
    mem2 !! 16 = Some ha ∧ mem2 !! 64 = Some hb ∧
    IsSecondaryCacheCompatible ha = false ∧
    IsSecondaryCacheCompatible hb = true ∧
    without_secondary_compat hb = 16 ∧ without_secondary_compat ha = 16 ∧
    role ha = role hb ∧ del_cb ha = del_cb hb ∧
    (∀ p, p ≠ 16 → p ≠ 64 → mem2 !! p = (∅ : helper_mem) !! p).
Proof.
  apply (CacheItemHelper_ctor2_then_ctor6 ∅ 16 64 (kRole 0) 7 8 9 10);
    discriminate.
Defined.

(** ** Memories built by the constructors *)

(** Each constructor that returns has stored, at its [this], a helper that
    satisfies what the assertions check. *)
Lemma construct_Some c mem mem' :
  construct c mem = Some mem' →
  ∃ self, mem' = <[ctor_this c := self]> mem ∧ helper_invariant mem' self.
Proof.
  destruct c as [this|this r d|this r d sz sv cr w]; cbn [construct ctor_this];
    unfold CacheItemHelper_ctor0, CacheItemHelper_ctor2;
    intros Hc; apply CacheItemHelper_ctor6_Some in Hc; eauto.
Qed.

(** A construction at an address that holds no helper keeps the helpers that
    were there, and what the assertions checked of them. *)
Lemma construct_fresh_wf c mem mem' :
  helpers_wf mem → mem !! ctor_this c = None →
  construct c mem = Some mem' →
  helpers_wf mem' ∧ ∀ p, p ≠ ctor_this c → mem' !! p = mem !! p.
Proof.
  intros Hwf Hfresh Hc.
  apply construct_Some in Hc as (self & -> & Hself).
  split; [|intros p Hp; rewrite lookup_insert_ne by congruence; reflexivity].
  intros p h Hp. destruct (decide (p = ctor_this c)) as [->|Hne].
  - rewrite lookup_insert_eq in Hp. injection Hp as <-. exact Hself.
  - rewrite lookup_insert_ne in Hp by congruence.
    destruct (Hwf p h Hp) as (Hsv & Hcr & w & Hw & Hrest).
    split; [exact Hsv|]. split; [exact Hcr|].
    exists w. split; [|exact Hrest].
    rewrite lookup_insert_ne; [exact Hw|].
    intros Heq. rewrite <- Heq, Hfresh in Hw. discriminate.
Qed.

Lemma construct_all_fresh_wf cs mem mem' :
  helpers_wf mem →
  NoDup (ctor_this <$> cs) →
  (∀ c, c ∈ cs → mem !! ctor_this c = None) →
  construct_all cs mem = Some mem' →
  helpers_wf mem' ∧
  (∀ p, is_Some (mem' !! p) ↔ is_Some (mem !! p) ∨ p ∈ ctor_this <$> cs) ∧
  (∀ p, p ∉ ctor_this <$> cs → mem' !! p = mem !! p).
Proof.
  revert mem. induction cs as [|c cs IH]; intros mem Hwf Hnd Hfresh.
  - cbn [construct_all]. intros [= <-]. split; [exact Hwf|].
    split; [|reflexivity].
    intros p. rewrite fmap_nil, elem_of_nil. tauto.
  - cbn [construct_all].
    destruct (construct c mem) as [mem1|] eqn:Hc; [|discriminate].
    intros Hall. rewrite fmap_cons in Hnd. apply NoDup_cons in Hnd as [Hc_nin Hnd].
    assert (Hfc : mem !! ctor_this c = None)
      by (apply Hfresh; apply elem_of_cons; auto).
    destruct (construct_fresh_wf c mem mem1 Hwf Hfc Hc) as [Hwf1 Hframe1].
    assert (Hin1 : is_Some (mem1 !! ctor_this c)).
    { apply construct_Some in Hc as (self & -> & _).
      rewrite lookup_insert_eq. eauto. }
    destruct (IH mem1 Hwf1 Hnd) as (Hwf' & Hdom & Hframe); [|exact Hall|].
    { intros c' Hc'. rewrite Hframe1.
      - apply Hfresh. apply elem_of_cons. auto.
      - intros Heq. apply Hc_nin. rewrite <- Heq.
        apply list_elem_of_fmap. eauto. }
    split; [exact Hwf'|]. split.
    + intros p. rewrite Hdom, fmap_cons, elem_of_cons.
      destruct (decide (p = ctor_this c)) as [->|Hne].
      * split; [auto|]. intros _. left. exact Hin1.
      * rewrite Hframe1 by exact Hne. tauto.
    + intros p Hp. rewrite fmap_cons, elem_of_cons in Hp.
      rewrite Hframe by tauto. apply Hframe1. tauto.
Qed.

(** X4: a program that builds its helpers one after the other at distinct
    addresses, starting with none, and whose constructors all return, ends
    with a memory that holds a helper exactly at those addresses and in
    which every helper satisfies what the assertions check: its
    [without_secondary_compat] leads to a helper in memory with the same
    role, the same deleter and no secondary-cache support. *)
Theorem construct_all_helpers_wf cs mem :
  NoDup (ctor_this <$> cs) →
  construct_all cs ∅ = Some mem →
  helpers_wf mem ∧
  (∀ p, is_Some (mem !! p) ↔ p ∈ ctor_this <$> cs).
Proof.
  intros Hnd Hall.
  destruct (construct_all_fresh_wf cs ∅ mem) as (Hwf & Hdom & _);
    [|exact Hnd| |exact Hall|].
  - intros p h Hp. rewrite lookup_empty in Hp. discriminate.
  - intros c _. apply lookup_empty.
  - split; [exact Hwf|]. intros p. rewrite Hdom, lookup_empty.
    split; [intros [[? [=]]|H]; exact H|auto].
Qed.

Lemma construct_all_helpers_wf_witness :
  helpers_wf example_mem2 ∧
  (∀ p, is_Some (example_mem2 !! p) ↔
        p ∈ ctor_this <$> [Ctor2 16 (kRole 0) 7;
                           Ctor6 64 (kRole 0) 7 8 9 10 16]).
Proof.
  apply (construct_all_helpers_wf
           [Ctor2 16 (kRole 0) 7; Ctor6 64 (kRole 0) 7 8 9 10 16]
           example_mem2).
  - apply (bool_decide_unpack _). vm_compute. exact I.
  - vm_compute. reflexivity.
Defined.

(** X5: in such a memory the chain of [without_secondary_compat] pointers
    from a helper never dangles: any number of steps from a helper in
    memory reaches a helper in memory with the same role and the same
    deleter, and after at least one step that helper has no secondary-cache
    support. *)
Theorem follow_without_secondary_compat_wf mem p h n :
  helpers_wf mem →
  mem !! p = Some h →
  ∃ q w, follow_without_secondary_compat mem n p = Some q ∧
         mem !! q = Some w ∧
         role w = role h ∧ del_cb w = del_cb h ∧
         (n ≠ 0%nat → IsSecondaryCacheCompatible w = false).
Proof.
  intros Hwf. revert p h. induction n as [|n IH]; intros p h Hp.
  - exists p, h. repeat split; [exact Hp|]. intros H. destruct (H eq_refl).
  - cbn [follow_without_secondary_compat]. rewrite Hp.
    destruct (Hwf p h Hp) as (_ & _ & w1 & Hw1 & Hr & Hd & Hno).
    destruct (IH _ _ Hw1) as (q & w & Hq & Hw & Hr' & Hd' & Hno').
    exists q, w. repeat split; try congruence.
    intros _. destruct n as [|n']; [|apply Hno'; discriminate].
    cbn in Hq. injection Hq as <-. congruence.
Qed.

Lemma follow_without_secondary_compat_wf_witness :
  ∃ q w, follow_without_secondary_compat example_mem2 3 64 = Some q ∧
         example_mem2 !! q = Some w ∧
         role w = role example_helper ∧ del_cb w = del_cb example_helper ∧
         (3%nat ≠ 0%nat → IsSecondaryCacheCompatible w = false).
Proof.
  apply (follow_without_secondary_compat_wf example_mem2 64 example_helper 3).
  - apply (construct_all_fresh_wf
             [Ctor2 16 (kRole 0) 7; Ctor6 64 (kRole 0) 7 8 9 10 16]
             ∅ example_mem2).
    + intros p h Hp. rewrite lookup_empty in Hp. discriminate.
    + apply (bool_decide_unpack _). vm_compute. exact I.
    + intros c _. apply lookup_empty.
    + vm_compute. reflexivity.
  - vm_compute. reflexivity.
Defined.


(** ** Stacks of wrappers *)

Lemma wrap_all_cons {St : Type} (name : string) (names : list string)
    (T : Cache St) :
  wrap_all (name :: names) T = CacheWrapper name (wrap_all names T).
Proof. reflexivity. Qed.

Lemma wrap_all_Release {St : Type} (names : list string) (T : Cache St) :
  Release (wrap_all names T) = Release T.
Proof.
  induction names as [|name names IH]; [reflexivity|].
  rewrite wrap_all_cons. exact IH.
Qed.

(** X6: the functions that CacheWrapper declares go through any number of
    wrappers unchanged: called on the outermost wrapper of a stack, each
    gives the result and the effect on the shared state of the same call on
    the innermost target; so does [BasicLookup]. *)
Theorem wrap_all_forwards_declared {St : Type} (names : list string)
    (T : Cache St) :
  Insert (wrap_all names T) = Insert T ∧
  Lookup (wrap_all names T) = Lookup T ∧
  Ref (wrap_all names T) = Ref T ∧
  Release (wrap_all names T) = Release T ∧
  Value (wrap_all names T) = Value T ∧
  Erase (wrap_all names T) = Erase T ∧
  NewId (wrap_all names T) = NewId T ∧
  SetCapacity (wrap_all names T) = SetCapacity T ∧
  SetStrictCapacityLimit (wrap_all names T) = SetStrictCapacityLimit T ∧
  HasStrictCapacityLimit (wrap_all names T) = HasStrictCapacityLimit T ∧
  GetCapacity (wrap_all names T) = GetCapacity T ∧
  GetUsage (wrap_all names T) = GetUsage T ∧
  GetUsage_of (wrap_all names T) = GetUsage_of T ∧
  GetPinnedUsage (wrap_all names T) = GetPinnedUsage T ∧
  GetCharge (wrap_all names T) = GetCharge T ∧
  GetCacheItemHelper (wrap_all names T) = GetCacheItemHelper T ∧
  (∀ Acc, @ApplyToAllEntries St (wrap_all names T) Acc
          = @ApplyToAllEntries St T Acc) ∧
  EraseUnRefEntries (wrap_all names T) = EraseUnRefEntries T ∧
  BasicLookup (wrap_all names T) = BasicLookup T.
Proof.
  induction names as [|name names IH]; [repeat split|].
  rewrite wrap_all_cons.
  destruct IH as (I1 & I2 & I3 & I4 & I5 & I6 & I7 & I8 & I9 & I10 & I11
                  & I12 & I13 & I14 & I15 & I16 & I17 & I18 & I19).
  destruct (CacheWrapper_forwards_declared name (wrap_all names T))
    as (F1 & F2 & F3 & F4 & F5 & F6 & F7 & F8 & F9 & F10 & F11
        & F12 & F13 & F14 & F15 & F16 & F17 & F18 & F19).
  repeat split; try (etrans; eassumption).
  intros Acc. rewrite F17. apply I17.
Qed.

(** X7: on a stack of at least one wrapper, the functions that CacheWrapper
    does not declare are those of [Cache], whatever the target and the
    wrappers below do: the counts are "not supported", [IsReady] is true,
    [DisownData], [Wait] and [WaitAll] do nothing, the three-argument
    [Release] is the two-argument [Release] of the target, and no memory
    allocator is reported. *)
Theorem wrap_all_inherited {St : Type} (names : list string) (T : Cache St)
    (s : St) (h : Handle) (hs : list Handle) (useful e : bool)
    (info_log : ptr) :
  names ≠ [] →
  inherits_defaults (wrap_all names T) ∧
  GetOccupancyCount (wrap_all names T) s = SIZE_MAX ∧
  GetTableAddressCount (wrap_all names T) s = 0 ∧
  DisownData (wrap_all names T) s = s ∧
  GetPrintableOptions (wrap_all names T) s = EmptyString ∧
  ReportProblems (wrap_all names T) info_log s = [] ∧
  IsReady (wrap_all names T) h s = (true, s) ∧
  Wait (wrap_all names T) h s = s ∧
  WaitAll (wrap_all names T) hs s = s ∧
  Release_useful (wrap_all names T) h useful e s = Release T h e s ∧
  memory_allocator (wrap_all names T) = nullptr.
Proof.
  destruct names as [|name names]; [congruence|]. intros _.
  rewrite wrap_all_cons.
  split; [apply CacheWrapper_inherits_defaults|].
  destruct (CacheWrapper_inherited name (wrap_all names T) s h hs useful e
              info_log)
    as (H1 & H2 & H3 & H4 & H5 & H6 & H7 & H8 & H9 & H10).
  rewrite wrap_all_Release in H9. repeat split; assumption.
Qed.

Lemma wrap_all_inherited_witness :
  inherits_defaults (wrap_all ["Outer"; "Inner"] RecordingCache) ∧
  GetOccupancyCount (wrap_all ["Outer"; "Inner"] RecordingCache) [] = SIZE_MAX ∧
  GetTableAddressCount (wrap_all ["Outer"; "Inner"] RecordingCache) [] = 0 ∧
  DisownData (wrap_all ["Outer"; "Inner"] RecordingCache) [] = [] ∧
  GetPrintableOptions (wrap_all ["Outer"; "Inner"] RecordingCache) []
    = EmptyString ∧
  ReportProblems (wrap_all ["Outer"; "Inner"] RecordingCache) 0 [] = [] ∧
  IsReady (wrap_all ["Outer"; "Inner"] RecordingCache) 1 [] = (true, []) ∧
  Wait (wrap_all ["Outer"; "Inner"] RecordingCache) 1 [] = [] ∧
  WaitAll (wrap_all ["Outer"; "Inner"] RecordingCache) [1; 2] [] = [] ∧
  Release_useful (wrap_all ["Outer"; "Inner"] RecordingCache) 1 true false []
    = Release RecordingCache 1 false [] ∧
  memory_allocator (wrap_all ["Outer"; "Inner"] RecordingCache) = nullptr.
Proof.
  apply (wrap_all_inherited ["Outer"; "Inner"] RecordingCache [] 1 [1; 2]
           true false 0).
  discriminate.
Defined.

(** A target that overrides none of the functions that have a body in
    [Cache] does what those bodies do. *)
Lemma inherits_defaults_behaves {St : Type} (T : Cache St) :
  inherits_defaults T → behaves_as_Cache_bodies T.
Proof.
  intros (H1 & H2 & H3 & H4 & H5 & H6 & H7 & H8 & H9).
  unfold behaves_as_Cache_bodies, GetOccupancyCount, GetTableAddressCount,
    DisownData, GetPrintableOptions, ReportProblems, Release_useful, IsReady,
    Wait, WaitAll.
  rewrite H1, H2, H3, H4, H5, H6, H7, H8, H9. repeat split.
Qed.

(** X8: a wrapper gives, for every function that has a body in [Cache], the
    result and the effect of the same call on its target exactly when the
    target does for each of them what the body in [Cache] does; a target that
    overrides none of them is such a target.  With the functions that the
    wrapper declares, the wrapper is then a faithful stand-in for its target
    in every call. *)
Theorem CacheWrapper_agrees_iff {St : Type} (name : string) (T : Cache St) :
  (agree_on_bodied (CacheWrapper name T) T ↔ behaves_as_Cache_bodies T) ∧
  (inherits_defaults T → agree_on_bodied (CacheWrapper name T) T).
Proof.
  assert (Hiff : agree_on_bodied (CacheWrapper name T) T
                 ↔ behaves_as_Cache_bodies T).
  { unfold agree_on_bodied, behaves_as_Cache_bodies.
    split; intros (H1 & H2 & H3 & H4 & H5 & H6 & H7 & H8 & H9).
    - repeat split; intros.
      + rewrite <- H1. reflexivity.
      + rewrite <- H2. reflexivity.
      + rewrite <- H3. reflexivity.
      + rewrite <- H4. reflexivity.
      + rewrite <- H5. reflexivity.
      + rewrite <- H6. reflexivity.
      + rewrite <- H7. reflexivity.
      + rewrite <- H8. reflexivity.
      + rewrite <- H9. reflexivity.
    - repeat split; intros.
      + rewrite H1. reflexivity.
      + rewrite H2. reflexivity.
      + rewrite H3. reflexivity.
      + rewrite H4. reflexivity.
      + rewrite H5. reflexivity.
      + rewrite H6. reflexivity.
      + rewrite H7. reflexivity.
      + rewrite H8. reflexivity.
      + rewrite H9. reflexivity. }
  split; [exact Hiff|].
  intros Hd. apply Hiff, inherits_defaults_behaves, Hd.
Qed.

(** A wrapper around a wrapper: the inner one overrides nothing. *)
Lemma CacheWrapper_agrees_iff_witness :
  agree_on_bodied (CacheWrapper "Outer" (CacheWrapper "Inner" RecordingCache))
                  (CacheWrapper "Inner" RecordingCache).
Proof.
  apply (proj2 (CacheWrapper_agrees_iff
                  "Outer" (CacheWrapper "Inner" RecordingCache))).
  apply CacheWrapper_inherits_defaults.
Defined.

(** ** The cache of the spec behind the interface *)





(** C6: on the cache of the spec, [IsReady] is true for a handle in the
    Present, Failed or PendingReady state and false exactly for a handle in
    the PendingNotReady state, and it changes nothing.  On a cache with no
    secondary tier, which has no pending handle, and on every cache that
    keeps the body of [Cache], it is true for every handle. *)
Theorem IsReady_four_states mem deserialize handle obj :
  (∀ st, CacheCore.handle_state handle (co_state obj) = Some st →
         st ∈ [Present; Failed; PendingReady] →
         IsReady (CoreCache mem deserialize) handle (Some obj)
           = (true, Some obj)) ∧
  (fst (IsReady (CoreCache mem deserialize) handle (Some obj)) = false ↔
   CacheCore.handle_state handle (co_state obj) = Some PendingNotReady) ∧
  snd (IsReady (CoreCache mem deserialize) handle (Some obj)) = Some obj ∧
  (CacheCore.no_tier (co_state obj) →
   IsReady (CoreCache mem deserialize) handle (Some obj)
     = (true, Some obj)) ∧
  (∀ (St : Type) (c : Cache St) h s,
     IsReady_override c = None → IsReady c h s = (true, s)).
Proof.
  assert (Hcall : IsReady (CoreCache mem deserialize) handle (Some obj)
                  = (CacheCore.IsReady handle (co_state obj), Some obj))
    by reflexivity.
  destruct (IsReady_handle_state handle (co_state obj)) as [Htrue Hfalse].
  rewrite Hcall. cbn [fst snd].
  split; [|split; [exact Hfalse|split; [reflexivity|split]]].
  - intros st Hst Hin. rewrite (Htrue st Hst Hin). reflexivity.
  - intros Hno.
    destruct (no_tier_IsReady_Wait mem deserialize (co_state obj) handle []
                Hno) as [-> _].
    reflexivity.
  - intros St c h s Hov. unfold IsReady. rewrite Hov. reflexivity.
Qed.

(** Handle 1 of [example_pending] is pending and not ready, handle 2 is
    pending and ready. *)
Lemma IsReady_four_states_witness :
  fst (IsReady (CoreCache example_mem2 example_deserialize) 1
               (Some example_pending)) = false ∧
  IsReady (CoreCache example_mem2 example_deserialize) 2
          (Some example_pending) = (true, Some example_pending).
Proof.
  split.
  - apply (proj2 (proj1 (proj2 (IsReady_four_states
                                  example_mem2 example_deserialize 1
                                  example_pending)))).
    vm_compute. reflexivity.
  - apply (proj1 (IsReady_four_states example_mem2 example_deserialize 2
                                      example_pending) PendingReady).
    + vm_compute. reflexivity.
    + repeat constructor.
Defined.
